(** * ChemMate: the chemical equation balancer of [algo.py]

    A shallow embedding of [ChemicalEquationBalancer] (src/algo.py): the
    equation splitter [parse_equation], the formula parser [_parse_compound],
    the matrix builder [_build_matrix], the null-space solver [_solve_matrix]
    (on top of a model of [sympy.Matrix.nullspace] over exact rationals), the
    formatter [get_balanced_equation] and the entry point [balance].

    Conventions.
    - A Python [str] is a Rocq [string]; each character is a code point
      below 256 (the Latin-1 block), classified as CPython classifies it.
    - A Python [int] is a [Z]; a sympy [Rational] is a canonical rational [Qc].
    - A [dict] is an association list in insertion order (the order CPython
      iterates a dict in); a [set] is the sequence of its insertions, and the
      order [list(set)] enumerates it in is a parameter.
    - A raised exception is the [Raise] case of [result]; the fields of
      [self] are threaded explicitly through the methods that touch them.
    - Limits of the interpreter (the recursion depth, the longest digit
      string [int] and [str] convert) are not modelled; a theorem that
      depends on one states it as a hypothesis. *)

From Stdlib Require Import List String Ascii Bool Arith ZArith QArith Qcanon.
From Stdlib Require Import Lia DecimalString.
Import ListNotations.

Open Scope string_scope.
Open Scope list_scope.
Open Scope Z_scope.

(* ================================================================== *)
(** * Exceptions *)

Inductive exn : Type :=
| ValueError (msg : string)
| Exception (msg : string)
| IndexError
| ZeroDivisionError
| OutOfFuel.   (* artefact of the model's loop bound; shown unreachable *)

Inductive result (A : Type) : Type :=
| Ok (a : A)
| Raise (e : exn).

Arguments Ok {A} a.
Arguments Raise {A} e.

Definition bind {A B : Type} (m : result A) (k : A -> result B) : result B :=
  match m with
  | Ok a => k a
  | Raise e => Raise e
  end.

Notation "x <- m ;; k" := (bind m (fun x => k))
  (at level 61, m at next level, right associativity).
Notation "' p <- m ;; k" := (bind m (fun p => k))
  (at level 61, p pattern, m at next level, right associativity).

Fixpoint mapM {A B : Type} (f : A -> result B) (l : list A) : result (list B) :=
  match l with
  | [] => Ok []
  | a :: l' => b <- f a ;; bs <- mapM f l' ;; Ok (b :: bs)
  end.

(* ================================================================== *)
(** * Python builtins on characters, strings and integers *)

Module Py.

Local Open Scope string_scope.

Definition ord (c : ascii) : nat := nat_of_ascii c.

Definition between (lo n hi : nat) : bool := (lo <=? n)%nat && (n <=? hi)%nat.

(** [str.isdigit] on one character: the ASCII digits and the superscripts
    U+00B2, U+00B3, U+00B9 (Numeric_Type=Digit). *)
Definition isdigit (c : ascii) : bool :=
  between 48 (ord c) 57 || (ord c =? 178)%nat || (ord c =? 179)%nat
  || (ord c =? 185)%nat.

(** [str.isdecimal]: the characters [int] accepts as digits. *)
Definition isdecimal (c : ascii) : bool := between 48 (ord c) 57.

(** [str.isupper] on one character: property Uppercase. *)
Definition isupper (c : ascii) : bool :=
  between 65 (ord c) 90 || between 192 (ord c) 214 || between 216 (ord c) 222.

(** [str.islower] on one character: property Lowercase. *)
Definition islower (c : ascii) : bool :=
  between 97 (ord c) 122 || (ord c =? 170)%nat || (ord c =? 181)%nat
  || (ord c =? 186)%nat || between 223 (ord c) 246 || between 248 (ord c) 255.

Definition digit_value (c : ascii) : Z := Z.of_nat (ord c) - 48.

Fixpoint int_digits (acc : Z) (s : string) : Z :=
  match s with
  | EmptyString => acc
  | String c s' => int_digits (10 * acc + digit_value c) s'
  end.

Fixpoint all_chars (p : ascii -> bool) (s : string) : bool :=
  match s with
  | EmptyString => true
  | String c s' => p c && all_chars p s'
  end.

(** [int(s)] for a string made of [isdigit] characters (the only strings the
    balancer passes): the decimal value, or [ValueError] when the string is
    empty or holds a digit that is not a decimal one. *)
Definition int (s : string) : result Z :=
  match s with
  | EmptyString =>
      Raise (ValueError "invalid literal for int() with base 10: ''")
  | _ =>
      if all_chars isdecimal s then Ok (int_digits 0 s)
      else Raise (ValueError
                    ("invalid literal for int() with base 10: '" ++ s ++ "'"))
  end.

(** [str(n)] for an integer. *)
Definition str (n : Z) : string := NilZero.string_of_int (Z.to_int n).

(** [s[i:]] *)
Fixpoint drop (i : nat) (s : string) : string :=
  match i, s with
  | O, _ => s
  | S i', EmptyString => EmptyString
  | S i', String _ s' => drop i' s'
  end.

(** [s[a:b]] for [0 <= a] and [0 <= b]. *)
Definition slice (s : string) (a b : nat) : string := substring a (b - a) s.

(** [s.replace(old, new)] for a non-empty [old]: the occurrences of [old] are
    found left to right and do not overlap; [skip] counts the characters of a
    matched occurrence still to be passed over. *)
Fixpoint replace_from (old new : string) (skip : nat) (s : string) : string :=
  match s with
  | EmptyString => EmptyString
  | String c s' =>
      match skip with
      | S k => replace_from old new k s'
      | O =>
          if prefix old s
          then new ++ replace_from old new (String.length old - 1) s'
          else String c (replace_from old new 0 s')
      end
  end.

Definition replace (s old new : string) : string := replace_from old new 0 s.

(** [s.split(sep)] for a non-empty [sep]; [cur] is the piece being read. *)
Fixpoint split_from (sep : string) (skip : nat) (cur : string) (s : string)
  : list string :=
  match s with
  | EmptyString => [cur]
  | String c s' =>
      match skip with
      | S k => split_from sep k cur s'
      | O =>
          if prefix sep s
          then cur :: split_from sep (String.length sep - 1) EmptyString s'
          else split_from sep 0 (cur ++ String c EmptyString) s'
      end
  end.

Definition split (s sep : string) : list string := split_from sep 0 EmptyString s.

(** [sep.join(l)] *)
Fixpoint join (sep : string) (l : list string) : string :=
  match l with
  | [] => EmptyString
  | [x] => x
  | x :: l' => x ++ sep ++ join sep l'
  end.

(** [min(l)] of a list of integers; [ValueError] on the empty list. *)
Definition min (l : list Z) : result Z :=
  match l with
  | [] => Raise (ValueError "min() arg is an empty sequence")
  | x :: l' => Ok (fold_left Z.min l' x)
  end.

(** [a // b] *)
Definition floordiv (a b : Z) : result Z :=
  if (b =? 0)%Z then Raise ZeroDivisionError else Ok (a / b)%Z.

End Py.

(* ================================================================== *)
(** * Dictionaries from element symbols to counts *)

Definition dict : Type := list (string * Z).

Fixpoint dict_mem (k : string) (d : dict) : bool :=
  match d with
  | [] => false
  | (k', _) :: d' => if String.eqb k k' then true else dict_mem k d'
  end.

(** [d.get(k, default)] *)
Fixpoint dict_get (d : dict) (k : string) (default : Z) : Z :=
  match d with
  | [] => default
  | (k', v) :: d' => if String.eqb k k' then v else dict_get d' k default
  end.

(** [d[k] = v]: overwrite in place, or insert at the end. *)
Fixpoint dict_set (d : dict) (k : string) (v : Z) : dict :=
  match d with
  | [] => [(k, v)]
  | (k', v') :: d' =>
      if String.eqb k k' then (k', v) :: d' else (k', v') :: dict_set d' k v
  end.

(** [if k in d: d[k] += v else: d[k] = v] *)
Definition dict_add (d : dict) (k : string) (v : Z) : dict :=
  if dict_mem k d then dict_set d k (dict_get d k 0 + v) else dict_set d k v.

Definition keys (d : dict) : list string := map fst d.
Definition values (d : dict) : list Z := map snd d.

(* ================================================================== *)
(** * The formula parser: [_parse_compound] *)

(** The scan for the matching close of a group,
    [while paren_count > 0 and j < len(compound)], run on [rest = compound[j:]];
    the result is the final [j]. *)
Fixpoint find_close (rest : string) (j paren_count : nat) : nat :=
  match rest with
  | EmptyString => j
  | String c rest' =>
      if (paren_count =? 0)%nat then j
      else if Ascii.eqb c "(" then find_close rest' (S j) (S paren_count)
      else if Ascii.eqb c ")" then find_close rest' (S j) (paren_count - 1)
      else find_close rest' (S j) paren_count
  end.

(** The subscript loop,
    [while j < len(compound) and compound[j].isdigit()], run on
    [rest = compound[j:]]; the result is [(subscript, j)]. *)
Fixpoint read_subscript (rest : string) (subscript : string) (j : nat)
  : string * nat :=
  match rest with
  | EmptyString => (subscript, j)
  | String c rest' =>
      if Py.isdigit c
      then read_subscript rest' (subscript ++ String c EmptyString)%string (S j)
      else (subscript, j)
  end.

(** [count = int(subscript) if subscript else 1] *)
Definition subscript_count (subscript : string) : result Z :=
  match subscript with
  | EmptyString => Ok 1
  | _ => Py.int subscript
  end.

(** The merge loop of a group,
    [for element, quantity in sub_elements.items()]. *)
Definition merge_group (elements sub_elements : dict) (count : Z) : dict :=
  fold_left (fun els '(element, quantity) => dict_add els element (quantity * count))
            sub_elements elements.

(** The main loop [while i < len(compound)] from the state [(i, elements)].
    Every iteration moves [i] forward and the recursive call is on a shorter
    string, so [fuel > len(compound) - i] is never used up. *)
Fixpoint parse_loop (fuel : nat) (compound : string) (i : nat) (elements : dict)
  : result dict :=
  match fuel with
  | O => Raise OutOfFuel
  | S fuel' =>
      match get i compound with
      | None => Ok elements
      | Some c =>
          if Ascii.eqb c "(" then
            let j := find_close (Py.drop (i + 1) compound) (i + 1) 1 in
            let subcompound := Py.slice compound (i + 1) (j - 1) in
            sub_elements <- parse_loop fuel' subcompound 0 [] ;;
            let '(subscript, j') := read_subscript (Py.drop j compound) EmptyString j in
            count <- subscript_count subscript ;;
            parse_loop fuel' compound j' (merge_group elements sub_elements count)
          else if Py.isupper c then
            let '(element, i1) :=
              match get (i + 1) compound with
              | Some c' =>
                  if Py.islower c' then (Py.slice compound i (i + 2), (i + 2)%nat)
                  else (String c EmptyString, (i + 1)%nat)
              | None => (String c EmptyString, (i + 1)%nat)
              end in
            let '(subscript, i2) := read_subscript (Py.drop i1 compound) EmptyString i1 in
            count <- subscript_count subscript ;;
            parse_loop fuel' compound i2 (dict_add elements element count)
          else
            parse_loop fuel' compound (i + 1) elements
      end
  end.

Definition _parse_compound (compound : string) : result dict :=
  parse_loop (S (String.length compound)) compound 0 [].

(* ================================================================== *)
(** * sympy: exact matrices and their null space

    [sympy.Matrix(rows).nullspace()] row-reduces the matrix to its reduced
    row-echelon form over the rationals and returns one basis vector per free
    column (the free variable set to one, the other free variables to zero,
    the pivot variables by back substitution).  The reduced row-echelon form
    of a matrix is unique, so the elimination below yields the vectors sympy
    returns whatever pivoting strategy sympy follows. *)

Module Sympy.

Local Open Scope Qc_scope.

Definition Integer (n : Z) : Qc := Q2Qc (inject_Z n).

(** [x.q]: the denominator of a rational in lowest terms. *)
Definition q (x : Qc) : Z := Zpos (Qden (this x)).

(** [x.p]: its numerator. *)
Definition p (x : Qc) : Z := Qnum (this x).

(** [int(x)]: truncation towards zero. *)
Definition to_int (x : Qc) : Z := Z.quot (p x) (q x).

Definition ilcm (a b : Z) : Z := Z.lcm a b.

Definition is_zero (x : Qc) : bool := Z.eqb (p x) 0.

Definition row : Type := list Qc.

Record matrix : Type := { cols : nat; data : list row }.

Definition rows (M : matrix) : nat := List.length (data M).

(** [sympy.Matrix(list_of_lists)]: the rows must have one length. *)
Definition Matrix (l : list (list Z)) : result matrix :=
  let n := match l with [] => O | r :: _ => List.length r end in
  if forallb (fun r => (List.length r =? n)%nat) l
  then Ok {| cols := n; data := map (map Integer) l |}
  else Raise (ValueError "mismatched dimensions").

Definition entry (r : row) (j : nat) : Qc := nth j r 0.

Definition scale_row (k : Qc) (r : row) : row := map (Qcmult k) r.

Definition sub_row (r1 r2 : row) : row :=
  map (fun xy => fst xy - snd xy) (combine r1 r2).

(** Zero column [c] of [r] with the normalized pivot row [prow]. *)
Definition cross_cancel (c : nat) (prow r : row) : row :=
  sub_row r (scale_row (entry r c) prow).

(** The first row of [rest] with a non-zero entry in column [c], with the rows
    before and after it. *)
Fixpoint find_pivot (c : nat) (rest : list row)
  : option (list row * row * list row) :=
  match rest with
  | [] => None
  | r :: rest' =>
      if is_zero (entry r c) then
        match find_pivot c rest' with
        | Some (before, pr, after) => Some (r :: before, pr, after)
        | None => None
        end
      else Some ([], r, rest')
  end.

(** The rows below the pivot row once the pivot row has been swapped with the
    first of them. *)
Definition after_swap (before after : list row) : list row :=
  match before with
  | [] => after
  | r0 :: mid => mid ++ r0 :: after
  end.

(** One column of the elimination.  The state is the pivot rows found so far,
    their columns, and the rows below them. *)
Definition rref_step (st : list row * list nat * list row) (c : nat)
  : list row * list nat * list row :=
  let '(done, pivots, rest) := st in
  match find_pivot c rest with
  | None => st
  | Some (before, pr, after) =>
      let prow := scale_row (/ entry pr c) pr in
      (map (cross_cancel c prow) done ++ [prow],
       pivots ++ [c],
       map (cross_cancel c prow) (after_swap before after))
  end.

Definition rref_state (M : matrix) : list row * list nat * list row :=
  fold_left rref_step (seq 0 (cols M)) ([], [], data M).

(** [M.rref()]: the reduced matrix and the pivot columns. *)
Definition rref (M : matrix) : list row * list nat :=
  let '(done, pivots, rest) := rref_state M in (done ++ rest, pivots).

Definition unit_vector (n f : nat) : row :=
  map (fun j => if (j =? f)%nat then 1 else 0) (seq 0 n).

(** [vec[j] -= x] *)
Fixpoint sub_at (vec : row) (j : nat) (x : Qc) : row :=
  match vec, j with
  | [], _ => []
  | v :: vec', O => (v - x) :: vec'
  | v :: vec', S j' => v :: sub_at vec' j' x
  end.

Definition basis_vector (reduced : list row) (pivots : list nat) (n free_var : nat)
  : row :=
  fold_left
    (fun vec '(piv_row, piv_col) =>
       sub_at vec piv_col (entry (nth piv_row reduced []) free_var))
    (combine (seq 0 (List.length pivots)) pivots)
    (unit_vector n free_var).

Definition free_vars (pivots : list nat) (n : nat) : list nat :=
  filter (fun i => negb (existsb (Nat.eqb i) pivots)) (seq 0 n).


(** [M.nullspace()] *)
Definition nullspace (M : matrix) : list row :=
  let '(reduced, pivots) := rref M in
  map (basis_vector reduced pivots (cols M)) (free_vars pivots (cols M)).

End Sympy.

(* ================================================================== *)
(** * The balancer *)

Record ChemicalEquationBalancer : Type := {
  elements : dict;
  compounds : list string
}.

Definition __init__ : ChemicalEquationBalancer :=
  {| elements := []; compounds := [] |}.

Definition arrow : string := "-->".

(** The first line of [parse_equation]. *)
Definition normalize (equation : string) : string :=
  Py.replace (Py.replace (Py.replace equation " " "") "_" "")
             "\longrightarrow" arrow.

(** [parse_equation]: the result and the balancer after the call. *)
Definition parse_equation (self : ChemicalEquationBalancer) (equation : string)
  : result (list string * list string) * ChemicalEquationBalancer :=
  let equation := normalize equation in
  let sides := Py.split equation arrow in
  match sides with
  | [lhs; rhs] =>
      let reactants := Py.split lhs "+" in
      let products := Py.split rhs "+" in
      (Ok (reactants, products),
       {| elements := elements self; compounds := reactants ++ products |})
  | _ => (Raise (ValueError "Unable to parse the equation"), self)
  end.

Section Balancer.

(** The order in which [list(all_elements)] enumerates the set built by the
    given sequence of [add] calls. *)
Variable list_of_set : list string -> list string.

(** The elements added to [all_elements] by one of the two collecting loops. *)
Definition collect (side : list string) : result (list string) :=
  ds <- mapM _parse_compound side ;; Ok (List.concat (map keys ds)).

Definition build_row (reactants products : list string) (element : string)
  : result (list Z) :=
  rs <- mapM (fun compound =>
                elements <- _parse_compound compound ;;
                Ok (- dict_get elements element 0)) reactants ;;
  ps <- mapM (fun compound =>
                elements <- _parse_compound compound ;;
                Ok (dict_get elements element 0)) products ;;
  Ok (rs ++ ps).

Definition _build_matrix (reactants products : list string)
  : result (list (list Z) * list string) :=
  added_r <- collect reactants ;;
  added_p <- collect products ;;
  let element_list := list_of_set (added_r ++ added_p) in
  matrix <- mapM (build_row reactants products) element_list ;;
  Ok (matrix, element_list).

Definition _solve_matrix (matrix : list (list Z)) : result (list Z) :=
  M <- Sympy.Matrix matrix ;;
  match Sympy.nullspace M with
  | [] => Raise (Exception "No solution found for the matrix.")
  | sol :: _ =>
      let denominators := map Sympy.q sol in
      let lcm_denom := fold_left Sympy.ilcm denominators 1 in
      let coeffs :=
        map (fun x => Sympy.to_int (x * Sympy.Integer lcm_denom)%Qc) sol in
      m <- Py.min coeffs ;;
      let coeffs := if m <? 0 then map Z.opp coeffs else coeffs in
      match coeffs with
      | [] => Raise IndexError
      | c0 :: cs =>
          let g := fold_left Z.gcd cs c0 in
          mapM (fun c => Py.floordiv c g) coeffs
      end
  end.

(** One side of [get_balanced_equation]: [offset] is [0] for the reactants and
    [len(reactants)] for the products. *)
Fixpoint format_side (coefficients : list Z) (offset : nat) (i : nat)
  (side : list string) : result (list string) :=
  match side with
  | [] => Ok []
  | compound :: side' =>
      match nth_error coefficients (i + offset) with
      | None => Raise IndexError
      | Some coef =>
          let item := if coef =? 1 then compound else (Py.str coef ++ compound)%string in
          items <- format_side coefficients offset (S i) side' ;;
          Ok (item :: items)
      end
  end.

Definition get_balanced_equation (coefficients : list Z)
  (reactants products : list string) : result string :=
  balanced_reactants <- format_side coefficients 0 0 reactants ;;
  balanced_products <-
    format_side coefficients (List.length reactants) 0 products ;;
  Ok (Py.join " + " balanced_reactants ++ "\to"
        ++ Py.join " + " balanced_products)%string.

(** The coefficient vector [balance] computes on its way to the string. *)
Definition coefficients_of (reactants products : list string) : result (list Z) :=
  '(matrix, _) <- _build_matrix reactants products ;;
  _solve_matrix matrix.

(** [balance]: the result and the balancer after the call. *)
Definition balance (self : ChemicalEquationBalancer) (equation : string)
  : result string * ChemicalEquationBalancer :=
  match parse_equation self equation with
  | (Raise e, self') => (Raise e, self')
  | (Ok (reactants, products), self') =>
      (coefficients <- coefficients_of reactants products ;;
       get_balanced_equation coefficients reactants products,
       self')
  end.

End Balancer.

(** Insertion order without repetitions: one order a [set] may be listed in. *)
Fixpoint first_occurrences (l : list string) : list string :=
  match l with
  | [] => []
  | x :: l' => x :: filter (fun y => negb (String.eqb x y)) (first_occurrences l')
  end.

(* ================================================================== *)
(** * Predicates used in the statements *)

(** A character that [int] can read wherever [isdigit] accepts it. *)
Definition plain (c : ascii) : bool := negb (Py.isdigit c) || Py.isdecimal c.

(** The loop of the model ends in a mapping or in the [ValueError] of [int]:
    its bound is not used up. *)
Definition parse_outcome (r : result dict) : Prop :=
  (exists d, r = Ok d) \/ (exists msg, r = Raise (ValueError msg)).

(** Every count stored in [d] is at least [lo]. *)
Definition values_ge (lo : Z) (d : dict) : Prop :=
  Forall (fun v => lo <= v) (values d).

(** The main loop of [_parse_compound] resumed from the state [(i, elements)]. *)
Definition parse_from (compound : string) (i : nat) (elements : dict)
  : result dict :=
  parse_loop (S (String.length compound - i)) compound i elements.

(** U+00B2 SUPERSCRIPT TWO. *)
Definition superscript_two : ascii := ascii_of_nat 178.

(** The number of positions of [s] at which [sep] occurs. *)
Fixpoint occurrences (sep s : string) : nat :=
  match s with
  | EmptyString => O
  | String _ s' => ((if prefix sep s then 1 else 0) + occurrences sep s')%nat
  end.

(** What [list(set)] guarantees of its order: every element added, once. *)
Definition lists_the_set (list_of_set : list string -> list string) : Prop :=
  forall added,
    NoDup (list_of_set added)
    /\ forall x, In x (list_of_set added) <-> In x added.

(** The inner product of a row and a vector of rationals. *)
Fixpoint dot (r v : list Qc) : Qc :=
  match r, v with
  | x :: r', y :: v' => (x * y + dot r' v')%Qc
  | _, _ => Q2Qc 0
  end.

(** The inner product of a row and a vector of integers. *)
Fixpoint dotZ (r v : list Z) : Z :=
  match r, v with
  | x :: r', y :: v' => x * y + dotZ r' v'
  | _, _ => 0
  end.

(** [v] is in the null space of the matrix with the given rows. *)
Definition in_kernel (rws : list Sympy.row) (v : Sympy.row) : Prop :=
  forall r, In r rws -> dot r v = Q2Qc 0.

(** All rows of the matrix have [cols] entries. *)
Definition well_formed (M : Sympy.matrix) : Prop :=
  forall r, In r (Sympy.data M) -> List.length r = Sympy.cols M.

(** The invariant of the elimination once the columns below [c] are done:
    every row has [n] entries; each pivot row has a pivot column below [c];
    the rows under the pivot rows vanish on the columns below [c]; and the
    [i]-th pivot row holds 1 in the [i]-th pivot column and 0 in the others. *)
Definition rref_inv (n c : nat) (st : list Sympy.row * list nat * list Sympy.row)
  : Prop :=
  let '(done, pivots, rest) := st in
  (forall r, In r (done ++ rest) -> List.length r = n)
  /\ List.length done = List.length pivots
  /\ (forall p, In p pivots -> (p < c)%nat)
  /\ (forall r j, In r rest -> (j < c)%nat -> Sympy.entry r j = Q2Qc 0)
  /\ (forall i k d p d' p',
        nth_error (combine done pivots) i = Some (d, p) ->
        nth_error (combine done pivots) k = Some (d', p') ->
        Sympy.entry d p' = if (i =? k)%nat then Q2Qc 1 else Q2Qc 0).

Definition rows_of (st : list Sympy.row * list nat * list Sympy.row)
  : list Sympy.row :=
  let '(done, _, rest) := st in done ++ rest.

(** The sum that back substitution subtracts from the inner product with
    [r]: over the pivot rows [d] with pivot column [p], [r[p] * d[f]]. *)
Definition pivot_sum (r : Sympy.row) (f : nat) (dp : list (Sympy.row * nat))
  : Qc :=
  fold_right (fun '(d, p) acc => (Sympy.entry r p * Sympy.entry d f + acc)%Qc)
             (Q2Qc 0) dp.

(** The greatest common divisor of the entries of a vector. *)
Definition gcd_list (l : list Z) : Z := fold_right Z.gcd 0 l.

(** The atoms of [element] on one side of the equation: the sum over the
    side's compounds of the element's parsed count times the coefficient. *)
Definition side_sum (element : string) (side : list dict) (coefficients : list Z)
  : Z :=
  dotZ (map (fun d => dict_get d element 0) side) coefficients.

(** The row [_build_matrix] builds for [element] from the parsed compounds. *)
Definition row_of (dr dp : list dict) (element : string) : list Z :=
  map (fun d => - dict_get d element 0) dr
  ++ map (fun d => dict_get d element 0) dp.

(** A character the main loop of the parser passes over: neither the
    opening token nor an uppercase letter. *)
Definition stray (c : ascii) : bool :=
  negb (Ascii.eqb c "(") && negb (Py.isupper c).

(** An element symbol: one uppercase letter, or one followed by one
    lowercase letter. *)
Definition is_symbol (k : string) : bool :=
  match k with
  | String c EmptyString => Py.isupper c
  | String c (String c' EmptyString) => Py.isupper c && Py.islower c'
  | _ => false
  end.

(** A character other than the two group tokens. *)
Definition not_paren (c : ascii) : bool :=
  negb (Ascii.eqb c "(") && negb (Ascii.eqb c ")").

(** [s[:-1]] *)
Definition init (s : string) : string := Py.slice s 0 (String.length s - 1).

(** Every count of [d] multiplied by [count], in the order of [d]. *)
Definition scale_dict (d : dict) (count : Z) : dict :=
  map (fun kv => (fst kv, snd kv * count)) d.

(** A character that can occur in a compound string the splitter returns:
    not a space, an underscore or a plus sign. *)
Definition compound_char (c : ascii) : bool :=
  negb (Ascii.eqb c " ") && negb (Ascii.eqb c "_") && negb (Ascii.eqb c "+").

(** The subscripts the main loop reads from the index [i] on when the parse
    returns, those read by the recursive calls included, in the order they
    are read: the digit run after each group and after each element symbol
    (the empty string where there is none). *)
Fixpoint subscripts_loop (fuel : nat) (compound : string) (i : nat)
  : list string :=
  match fuel with
  | O => []
  | S fuel' =>
      match get i compound with
      | None => []
      | Some c =>
          if Ascii.eqb c "(" then
            let j := find_close (Py.drop (i + 1) compound) (i + 1) 1 in
            let subcompound := Py.slice compound (i + 1) (j - 1) in
            let '(subscript, j') :=
              read_subscript (Py.drop j compound) EmptyString j in
            subscripts_loop fuel' subcompound 0
            ++ subscript :: subscripts_loop fuel' compound j'
          else if Py.isupper c then
            let '(_, i1) :=
              match get (i + 1) compound with
              | Some c' =>
                  if Py.islower c' then (Py.slice compound i (i + 2), (i + 2)%nat)
                  else (String c EmptyString, (i + 1)%nat)
              | None => (String c EmptyString, (i + 1)%nat)
              end in
            let '(subscript, i2) :=
              read_subscript (Py.drop i1 compound) EmptyString i1 in
            subscript :: subscripts_loop fuel' compound i2
          else
            subscripts_loop fuel' compound (i + 1)
      end
  end.

Definition subscripts (compound : string) : list string :=
  subscripts_loop (S (String.length compound)) compound 0.

(** A character other than the opening token. *)
Definition not_open (c : ascii) : bool := negb (Ascii.eqb c "(").

(** The longest digit string CPython converts to or from an [int] by
    default ([sys.get_int_max_str_digits()]). *)
Definition max_str_digits : nat := 4300.

(** An integer [str] converts: at most [max_str_digits] decimal digits. *)
Definition within_str_limit (n : Z) : Prop :=
  Z.abs n < 10 ^ Z.of_nat max_str_digits.

(* ================================================================== *)
(** * Properties of the string primitives *)

Lemma get_some_lt (s : string) : forall i c,
  get i s = Some c -> (i < String.length s)%nat.
Proof.
  induction s as [|a s IH]; intros [|i] c H; simpl in *; try discriminate; try lia.
  apply IH in H. lia.
Qed.

Lemma get_none_ge (s : string) : forall i,
  get i s = None -> (String.length s <= i)%nat.
Proof.
  induction s as [|a s IH]; intros [|i] H; simpl in *; try discriminate; try lia.
  apply IH in H. lia.
Qed.

Lemma length_drop (s : string) : forall i,
  String.length (Py.drop i s) = (String.length s - i)%nat.
Proof.
  induction s as [|a s IH]; intros [|i]; simpl; auto.
Qed.

Lemma length_substring_le (s : string) : forall a n,
  (String.length (substring a n s) <= n)%nat.
Proof.
  induction s as [|c s IH]; intros [|a] [|n]; simpl; try lia.
  - specialize (IH 0%nat n). lia.
  - apply (IH a 0%nat).
  - apply (IH a (S n)).
Qed.

Lemma length_substring_le_src (s : string) : forall a n,
  (String.length (substring a n s) <= String.length s - a)%nat.
Proof.
  induction s as [|c s IH]; intros [|a] [|n]; simpl; try lia.
  - specialize (IH 0%nat n). lia.
  - apply (IH a 0%nat).
  - apply (IH a (S n)).
Qed.

Lemma length_slice_le (s : string) (a b : nat) :
  (String.length (Py.slice s a b) <= b - a)%nat.
Proof. apply length_substring_le. Qed.

Lemma all_chars_app (P : ascii -> bool) (s t : string) :
  Py.all_chars P (s ++ t) = Py.all_chars P s && Py.all_chars P t.
Proof.
  induction s as [|c s IH]; simpl; auto. rewrite IH. now rewrite andb_assoc.
Qed.

Lemma all_chars_drop (P : ascii -> bool) (s : string) : forall i,
  Py.all_chars P s = true -> Py.all_chars P (Py.drop i s) = true.
Proof.
  induction s as [|c s IH]; intros [|i] H; simpl in *; auto.
  apply andb_true_iff in H. apply IH, H.
Qed.

Lemma all_chars_substring (P : ascii -> bool) (s : string) : forall a n,
  Py.all_chars P s = true -> Py.all_chars P (substring a n s) = true.
Proof.
  induction s as [|c s IH]; intros [|a] [|n] H; simpl in *; auto;
    apply andb_true_iff in H; destruct H as [Hc Hs].
  - now rewrite Hc, (IH 0%nat n Hs).
  - apply (IH a 0%nat Hs).
  - apply (IH a (S n) Hs).
Qed.

(* ================================================================== *)
(** * The scanning loops of the formula parser *)

Lemma find_close_bounds (rest : string) : forall j pc,
  (j <= find_close rest j pc <= j + String.length rest)%nat.
Proof.
  induction rest as [|c rest IH]; intros j pc; simpl; [lia|].
  destruct (pc =? 0)%nat; [lia|].
  destruct (Ascii.eqb c "("); [|destruct (Ascii.eqb c ")")];
    match goal with |- context [find_close rest ?a ?b] =>
      specialize (IH a b) end; lia.
Qed.

Lemma read_subscript_bounds (rest : string) : forall sub j,
  (j <= snd (read_subscript rest sub j) <= j + String.length rest)%nat.
Proof.
  induction rest as [|c rest IH]; intros sub j; simpl; [lia|].
  destruct (Py.isdigit c); simpl; [|lia].
  specialize (IH (sub ++ String c "")%string (S j)). lia.
Qed.

Lemma read_subscript_chars (P : ascii -> bool) (rest : string) : forall sub j,
  Py.all_chars P rest = true -> Py.all_chars P sub = true ->
  Py.all_chars P (fst (read_subscript rest sub j)) = true.
Proof.
  induction rest as [|c rest IH]; intros sub j Hr Hs; simpl in *; auto.
  apply andb_true_iff in Hr. destruct Hr as [Hc Hr].
  destruct (Py.isdigit c); simpl; auto.
  apply IH; auto. rewrite all_chars_app, Hs. simpl. now rewrite Hc.
Qed.

Lemma read_subscript_isdigit (rest : string) : forall sub j,
  Py.all_chars Py.isdigit sub = true ->
  Py.all_chars Py.isdigit (fst (read_subscript rest sub j)) = true.
Proof.
  induction rest as [|c rest IH]; intros sub j Hs; simpl in *; auto.
  destruct (Py.isdigit c) eqn:Hc; simpl; auto.
  apply IH. rewrite all_chars_app, Hs. simpl. now rewrite Hc.
Qed.

Lemma all_chars_decimal (s : string) :
  Py.all_chars plain s = true -> Py.all_chars Py.isdigit s = true ->
  Py.all_chars Py.isdecimal s = true.
Proof.
  induction s as [|c s IH]; simpl; auto. intros H1 H2.
  apply andb_true_iff in H1, H2. destruct H1 as [Hp H1], H2 as [Hd H2].
  rewrite (IH H1 H2), andb_true_r. unfold plain in Hp. rewrite Hd in Hp. exact Hp.
Qed.

Lemma subscript_count_plain (compound : string) (j : nat) :
  Py.all_chars plain compound = true ->
  exists count,
    subscript_count (fst (read_subscript (Py.drop j compound) "" j)) = Ok count.
Proof.
  intros Hp.
  pose proof (read_subscript_chars plain (Py.drop j compound) "" j
                (all_chars_drop _ _ _ Hp) eq_refl) as H1.
  pose proof (read_subscript_isdigit (Py.drop j compound) "" j eq_refl) as H2.
  pose proof (all_chars_decimal _ H1 H2) as H3.
  destruct (fst (read_subscript (Py.drop j compound) "" j)) as [|c s] eqn:E.
  - exists 1. reflexivity.
  - exists (Py.int_digits 0 (String c s)). unfold subscript_count, Py.int.
    now rewrite H3.
Qed.

Lemma subscript_count_cases (subscript : string) :
  (exists count, subscript_count subscript = Ok count)
  \/ (exists msg, subscript_count subscript = Raise (ValueError msg)).
Proof.
  destruct subscript as [|c s]; [left; exists 1; reflexivity|].
  unfold subscript_count, Py.int. destruct (Py.all_chars Py.isdecimal (String c s));
    [left|right]; eauto.
Qed.

(* ================================================================== *)
(** * Termination of the formula parser *)

Lemma parse_loop_outcome : forall fuel compound i elements,
  (String.length compound - i < fuel)%nat ->
  parse_outcome (parse_loop fuel compound i elements).
Proof.
  induction fuel as [|fuel IH]; intros compound i elements Hfuel; [lia|].
  simpl. destruct (get i compound) as [c|] eqn:Hget; [|left; eauto].
  apply get_some_lt in Hget.
  destruct (Ascii.eqb c "(").
  - pose proof (find_close_bounds (Py.drop (i + 1) compound) (i + 1) 1) as Hj.
    rewrite length_drop in Hj.
    set (j := find_close (Py.drop (i + 1) compound) (i + 1) 1) in *.
    pose proof (length_slice_le compound (i + 1) (j - 1)) as Hsub.
    destruct (IH (Py.slice compound (i + 1) (j - 1)) 0%nat [] ltac:(lia))
      as [[sub ->]|[msg ->]]; [|right; simpl; eauto].
    simpl.
    pose proof (read_subscript_bounds (Py.drop j compound) "" j) as Hj'.
    destruct (read_subscript (Py.drop j compound) "" j) as [subscript j'].
    simpl in Hj'.
    destruct (subscript_count_cases subscript) as [[count ->]|[msg ->]];
      [|right; simpl; eauto].
    simpl. apply IH. lia.
  - destruct (Py.isupper c); [|apply IH; lia].
    set (sym := match get (i + 1) compound with
                | Some c' => if Py.islower c'
                             then (Py.slice compound i (i + 2), (i + 2)%nat)
                             else (String c "", (i + 1)%nat)
                | None => (String c "", (i + 1)%nat) end).
    assert (Hi1 : (i < snd sym)%nat).
    { subst sym. destruct (get (i + 1) compound) as [c'|];
        [destruct (Py.islower c')|]; simpl; lia. }
    destruct sym as [element i1]. simpl in Hi1.
    pose proof (read_subscript_bounds (Py.drop i1 compound) "" i1) as Hi2.
    destruct (read_subscript (Py.drop i1 compound) "" i1) as [subscript i2].
    simpl in Hi2.
    destruct (subscript_count_cases subscript) as [[count ->]|[msg ->]];
      [|right; simpl; eauto].
    simpl. apply IH. lia.
Qed.

Lemma parse_loop_plain : forall fuel compound i elements,
  (String.length compound - i < fuel)%nat ->
  Py.all_chars plain compound = true ->
  exists d, parse_loop fuel compound i elements = Ok d.
Proof.
  induction fuel as [|fuel IH]; intros compound i elements Hfuel Hp; [lia|].
  simpl. destruct (get i compound) as [c|] eqn:Hget; [|eauto].
  apply get_some_lt in Hget.
  destruct (Ascii.eqb c "(").
  - pose proof (find_close_bounds (Py.drop (i + 1) compound) (i + 1) 1) as Hj.
    rewrite length_drop in Hj.
    set (j := find_close (Py.drop (i + 1) compound) (i + 1) 1) in *.
    pose proof (length_slice_le compound (i + 1) (j - 1)) as Hsub.
    destruct (IH (Py.slice compound (i + 1) (j - 1)) 0%nat [] ltac:(lia)
                 (all_chars_substring _ _ _ _ Hp)) as [sub ->].
    simpl.
    pose proof (read_subscript_bounds (Py.drop j compound) "" j) as Hj'.
    destruct (subscript_count_plain compound j Hp) as [count Hc].
    destruct (read_subscript (Py.drop j compound) "" j) as [subscript j'].
    simpl in Hj', Hc. rewrite Hc. simpl. apply IH; [lia|auto].
  - destruct (Py.isupper c); [|apply IH; [lia|auto]].
    set (sym := match get (i + 1) compound with
                | Some c' => if Py.islower c'
                             then (Py.slice compound i (i + 2), (i + 2)%nat)
                             else (String c "", (i + 1)%nat)
                | None => (String c "", (i + 1)%nat) end).
    assert (Hi1 : (i < snd sym)%nat).
    { subst sym. destruct (get (i + 1) compound) as [c'|];
        [destruct (Py.islower c')|]; simpl; lia. }
    destruct sym as [element i1]. simpl in Hi1.
    pose proof (read_subscript_bounds (Py.drop i1 compound) "" i1) as Hi2.
    destruct (subscript_count_plain compound i1 Hp) as [count Hc].
    destruct (read_subscript (Py.drop i1 compound) "" i1) as [subscript i2].
    simpl in Hi2, Hc. rewrite Hc. simpl. apply IH; [lia|auto].
Qed.

(* ================================================================== *)
(** * Dictionaries *)

Lemma dict_get_not_mem (d : dict) (k : string) (default : Z) :
  dict_mem k d = false -> dict_get d k default = default.
Proof.
  induction d as [|[k' v'] d IH]; simpl; auto.
  destruct (String.eqb k k'); [discriminate|auto].
Qed.

Lemma dict_mem_keys (d : dict) (k : string) :
  dict_mem k d = true <-> In k (keys d).
Proof.
  induction d as [|[k' v'] d IH]; simpl; [split; [discriminate|tauto]|].
  destruct (String.eqb_spec k k') as [->|Hne]; [split; auto|].
  rewrite IH. split; [tauto|]. intros [E|H]; [congruence|auto].
Qed.

Lemma dict_get_mem_in (d : dict) (k : string) (default : Z) :
  dict_mem k d = true -> In (dict_get d k default) (values d).
Proof.
  induction d as [|[k' v'] d IH]; simpl; [discriminate|].
  destruct (String.eqb k k'); auto.
Qed.



Lemma keys_dict_set (d : dict) (k : string) (v : Z) :
  keys (dict_set d k v) = if dict_mem k d then keys d else keys d ++ [k].
Proof.
  induction d as [|[k0 v0] d IH]; simpl; auto.
  destruct (String.eqb k k0); simpl; auto.
  rewrite IH. now destruct (dict_mem k d).
Qed.

Lemma keys_dict_add (d : dict) (k : string) (v : Z) :
  keys (dict_add d k v) = if dict_mem k d then keys d else keys d ++ [k].
Proof.
  unfold dict_add. destruct (dict_mem k d) eqn:Hm; rewrite keys_dict_set, Hm; auto.
Qed.

Lemma values_dict_set (d : dict) (k : string) (v x : Z) :
  In x (values (dict_set d k v)) -> x = v \/ In x (values d).
Proof.
  induction d as [|[k0 v0] d IH]; simpl; [intuition congruence|].
  destruct (String.eqb k k0); simpl; intuition congruence.
Qed.

Lemma nodup_keys_dict_add (d : dict) (k : string) (v : Z) :
  NoDup (keys d) -> NoDup (keys (dict_add d k v)).
Proof.
  intros H. rewrite keys_dict_add. destruct (dict_mem k d) eqn:Hm; auto.
  apply NoDup_app; auto.
  - constructor; [intros []|constructor].
  - intros x Hx [<-|[]]. apply dict_mem_keys in Hx. congruence.
Qed.

Lemma nodup_keys_merge_group (sub : dict) : forall d count,
  NoDup (keys d) -> NoDup (keys (merge_group d sub count)).
Proof.
  unfold merge_group.
  induction sub as [|[k q] sub IH]; intros d count H; simpl; auto.
  apply IH, nodup_keys_dict_add, H.
Qed.


(* ================================================================== *)
(** * Invariants of the formula parser *)

Section ParseInvariant.

Variable okc : ascii -> bool.
Variable Pcount : Z -> Prop.
Variable P : dict -> Prop.

Hypothesis count_ok : forall s n,
  Py.all_chars okc s = true -> subscript_count s = Ok n -> Pcount n.
Hypothesis P_nil : P [].
Hypothesis P_add : forall d k v, P d -> Pcount v -> P (dict_add d k v).
Hypothesis P_merge : forall d sub c,
  P d -> P sub -> Pcount c -> P (merge_group d sub c).

Lemma read_count_ok (compound : string) (j : nat) (n : Z) :
  Py.all_chars okc compound = true ->
  subscript_count (fst (read_subscript (Py.drop j compound) "" j)) = Ok n ->
  Pcount n.
Proof.
  intros Hc. apply count_ok, read_subscript_chars; auto using all_chars_drop.
Qed.

Lemma parse_loop_invariant : forall fuel compound i elements d,
  Py.all_chars okc compound = true -> P elements ->
  parse_loop fuel compound i elements = Ok d -> P d.
Proof.
  induction fuel as [|fuel IH]; intros compound i elements d Hc HP; [discriminate|].
  simpl. destruct (get i compound) as [c|]; [|intros [= <-]; exact HP].
  destruct (Ascii.eqb c "(").
  - set (j := find_close (Py.drop (i + 1) compound) (i + 1) 1).
    destruct (parse_loop fuel (Py.slice compound (i + 1) (j - 1)) 0 [])
      as [sub|e] eqn:Hsub; [|discriminate].
    simpl. pose proof (read_count_ok compound j) as Hn.
    destruct (read_subscript (Py.drop j compound) "" j) as [subscript j'].
    simpl in Hn. destruct (subscript_count subscript) as [count|e]; [|discriminate].
    simpl. apply IH; auto. apply P_merge; auto.
    apply (IH _ _ _ _ (all_chars_substring _ _ _ _ Hc) P_nil Hsub).
  - destruct (Py.isupper c); [|apply IH; auto].
    destruct (match get (i + 1) compound with
              | Some c' => if Py.islower c'
                           then (Py.slice compound i (i + 2), (i + 2)%nat)
                           else (String c "", (i + 1)%nat)
              | None => (String c "", (i + 1)%nat) end) as [element i1].
    pose proof (read_count_ok compound i1) as Hn.
    destruct (read_subscript (Py.drop i1 compound) "" i1) as [subscript i2].
    simpl in Hn. destruct (subscript_count subscript) as [count|e]; [|discriminate].
    simpl. apply IH; auto.
Qed.

End ParseInvariant.

Lemma parse_compound_nodup_keys (compound : string) (d : dict) :
  _parse_compound compound = Ok d -> NoDup (keys d).
Proof.
  apply (parse_loop_invariant (fun _ => true) (fun _ => True)
           (fun d => NoDup (keys d))); auto.
  - constructor.
  - intros. now apply nodup_keys_dict_add.
  - intros. now apply nodup_keys_merge_group.
  - clear. induction compound; simpl; auto.
  - constructor.
Qed.

(** ** Counts are not negative *)

Lemma isdecimal_digit_value (c : ascii) :
  Py.isdecimal c = true -> 0 <= Py.digit_value c <= 9.
Proof.
  unfold Py.isdecimal, Py.between, Py.digit_value. intros H.
  apply andb_true_iff in H. destruct H as [H1 H2].
  apply Nat.leb_le in H1, H2. lia.
Qed.

Lemma int_digits_ge (lo : Z) (s : string) : forall acc,
  0 <= lo -> lo <= acc ->
  Py.all_chars Py.isdecimal s = true -> lo <= Py.int_digits acc s.
Proof.
  induction s as [|c s IH]; intros acc Hlo Hacc Hs;
    cbn [Py.int_digits Py.all_chars] in *; auto.
  apply andb_true_iff in Hs. destruct Hs as [Hc Hs].
  apply IH; auto. pose proof (isdecimal_digit_value c Hc). lia.
Qed.

Lemma subscript_count_nonneg (s : string) (n : Z) :
  subscript_count s = Ok n -> 0 <= n.
Proof.
  destruct s as [|c s]; [intros [= <-]; lia|].
  unfold subscript_count, Py.int.
  destruct (Py.all_chars Py.isdecimal (String c s)) eqn:Hd; [|discriminate].
  intros [= <-]. cbn [Py.all_chars] in Hd.
  apply andb_true_iff in Hd. destruct Hd as [Hc Hd].
  apply int_digits_ge; [lia| |exact Hd].
  pose proof (isdecimal_digit_value c Hc). lia.
Qed.

Lemma values_ge_dict_set (lo : Z) (d : dict) (k : string) (v : Z) :
  values_ge lo d -> lo <= v -> values_ge lo (dict_set d k v).
Proof.
  unfold values_ge. rewrite !Forall_forall. intros H Hv x Hx.
  apply values_dict_set in Hx. destruct Hx as [->|Hx]; auto.
Qed.

Lemma values_ge_dict_add (lo : Z) (d : dict) (k : string) (v : Z) :
  0 <= lo -> values_ge lo d -> lo <= v -> values_ge lo (dict_add d k v).
Proof.
  intros Hlo H Hv. unfold dict_add. destruct (dict_mem k d) eqn:Hm.
  - apply values_ge_dict_set; auto.
    pose proof (dict_get_mem_in d k 0 Hm) as Hin.
    unfold values_ge in H. rewrite Forall_forall in H. apply H in Hin. lia.
  - apply values_ge_dict_set; auto.
Qed.

Lemma values_ge_merge_group (lo : Z) (sub : dict) : forall d count,
  lo = 0 \/ lo = 1 ->
  values_ge lo d -> values_ge lo sub -> lo <= count ->
  values_ge lo (merge_group d sub count).
Proof.
  unfold merge_group.
  induction sub as [|[k q] sub IH]; intros d count Hlo Hd Hs Hc; simpl; auto.
  unfold values_ge in Hs. simpl in Hs. inversion Hs as [|? ? Hq Hs']; subst.
  apply IH; auto. apply values_ge_dict_add; auto; [lia|nia].
Qed.

(* ================================================================== *)
(** * The parser: groups, counts and totality *)

Lemma parse_loop_fuel : forall fuel1 fuel2 compound i elements,
  (String.length compound - i < fuel1)%nat ->
  (String.length compound - i < fuel2)%nat ->
  parse_loop fuel1 compound i elements = parse_loop fuel2 compound i elements.
Proof.
  induction fuel1 as [|fuel1 IH]; intros [|fuel2] compound i elements H1 H2;
    try lia.
  simpl. destruct (get i compound) as [c|] eqn:Hget; [|reflexivity].
  apply get_some_lt in Hget.
  destruct (Ascii.eqb c "(").
  - pose proof (find_close_bounds (Py.drop (i + 1) compound) (i + 1) 1) as Hj.
    rewrite length_drop in Hj.
    set (j := find_close (Py.drop (i + 1) compound) (i + 1) 1) in *.
    pose proof (length_slice_le compound (i + 1) (j - 1)) as Hsub.
    rewrite (IH fuel2 (Py.slice compound (i + 1) (j - 1)) 0%nat []) by lia.
    destruct (parse_loop fuel2 (Py.slice compound (i + 1) (j - 1)) 0 [])
      as [sub|e]; [|reflexivity].
    simpl.
    pose proof (read_subscript_bounds (Py.drop j compound) "" j) as Hj'.
    destruct (read_subscript (Py.drop j compound) "" j) as [subscript j'].
    simpl in Hj'. destruct (subscript_count subscript); [|reflexivity].
    simpl. apply IH; lia.
  - destruct (Py.isupper c); [|apply IH; lia].
    set (sym := match get (i + 1) compound with
                | Some c' => if Py.islower c'
                             then (Py.slice compound i (i + 2), (i + 2)%nat)
                             else (String c "", (i + 1)%nat)
                | None => (String c "", (i + 1)%nat) end).
    assert (Hi1 : (i < snd sym)%nat).
    { subst sym. destruct (get (i + 1) compound) as [c'|];
        [destruct (Py.islower c')|]; simpl; lia. }
    destruct sym as [element i1]. simpl in Hi1.
    pose proof (read_subscript_bounds (Py.drop i1 compound) "" i1) as Hi2.
    destruct (read_subscript (Py.drop i1 compound) "" i1) as [subscript i2].
    simpl in Hi2. destruct (subscript_count subscript); [|reflexivity].
    simpl. apply IH; lia.
Qed.

Lemma parse_compound_from (compound : string) :
  _parse_compound compound = parse_from compound 0 [].
Proof.
  unfold _parse_compound, parse_from. now rewrite Nat.sub_0_r.
Qed.



(** C7 fails as stated: the subscript [0] is stored as a count of zero. *)
Lemma parse_compound_zero_count :
  _parse_compound "H0" = Ok [("H", 0)] /\ ~ values_ge 1 [("H", 0)].
Proof.
  split; [reflexivity|]. intros H. inversion H; subst. lia.
Qed.

Lemma parse_loop_positive : forall fuel compound i elements d,
  (forall s, In s (subscripts_loop fuel compound i) ->
             subscript_count s <> Ok 0) ->
  values_ge 1 elements ->
  parse_loop fuel compound i elements = Ok d -> values_ge 1 d.
Proof.
  assert (Hpos : forall s n, subscript_count s <> Ok 0 ->
                             subscript_count s = Ok n -> 1 <= n).
  { intros s n Hne Hn. pose proof (subscript_count_nonneg s n Hn).
    assert (n <> 0) by congruence. lia. }
  induction fuel as [|fuel IH]; intros compound i elements d Hs HP;
    [discriminate|].
  cbn [parse_loop subscripts_loop] in *.
  destruct (get i compound) as [c|]; [|intros [= <-]; exact HP].
  destruct (Ascii.eqb c "(").
  - set (j := find_close (Py.drop (i + 1) compound) (i + 1) 1) in *.
    destruct (parse_loop fuel (Py.slice compound (i + 1) (j - 1)) 0 [])
      as [sub|e] eqn:Hsub; [|discriminate].
    cbn [bind].
    destruct (read_subscript (Py.drop j compound) "" j) as [subscript j'].
    destruct (subscript_count subscript) as [count|e] eqn:Hcount;
      [|discriminate].
    cbn [bind]. apply IH.
    + intros s Hin. apply Hs, in_app_iff. right. right. exact Hin.
    + apply values_ge_merge_group; auto.
      * apply (IH (Py.slice compound (i + 1) (j - 1)) 0%nat [] sub);
          [|constructor|exact Hsub].
        intros s Hin. apply Hs, in_app_iff. left. exact Hin.
      * apply (Hpos subscript); auto.
        apply Hs, in_app_iff. right. left. reflexivity.
  - destruct (Py.isupper c); [|apply IH; auto].
    destruct (match get (i + 1) compound with
              | Some c' => if Py.islower c'
                           then (Py.slice compound i (i + 2), (i + 2)%nat)
                           else (String c "", (i + 1)%nat)
              | None => (String c "", (i + 1)%nat) end) as [element i1].
    destruct (read_subscript (Py.drop i1 compound) "" i1) as [subscript i2].
    destruct (subscript_count subscript) as [count|e] eqn:Hcount;
      [|discriminate].
    cbn [bind]. apply IH.
    + intros s Hin. apply Hs. right. exact Hin.
    + apply values_ge_dict_add; auto; [lia|].
      apply (Hpos subscript); auto. apply Hs. left. reflexivity.
Qed.

(** C7, amended. Every count stored in the mapping the parser returns is at
    least 0, and at least 1 unless one of the subscripts the parser reads
    (the digit run after an element symbol or after a group) evaluates
    to 0. *)
Theorem parse_compound_counts (compound : string) (d : dict) :
  _parse_compound compound = Ok d ->
  values_ge 0 d
  /\ ((forall s, In s (subscripts compound) -> subscript_count s <> Ok 0) ->
      values_ge 1 d).
Proof.
  intros H. split.
  - revert H.
    apply (parse_loop_invariant (fun _ => true) (fun n => 0 <= n) (values_ge 0)).
    + intros s n _. apply subscript_count_nonneg.
    + constructor.
    + intros. apply values_ge_dict_add; auto; lia.
    + intros. apply values_ge_merge_group; auto.
    + clear. induction compound; simpl; auto.
    + constructor.
  - intros Hs. revert H. apply parse_loop_positive; [exact Hs|constructor].
Qed.

Lemma parse_compound_counts_witness :
  values_ge 0 [("C", 10); ("H", 22)] /\ values_ge 1 [("C", 10); ("H", 22)].
Proof.
  split.
  - exact (proj1 (parse_compound_counts "C10H22" _ eq_refl)).
  - apply (proj2 (parse_compound_counts "C10H22" _ eq_refl)).
    intros s Hs. vm_compute in Hs.
    destruct Hs as [<-|[<-|[]]]; vm_compute; discriminate.
Defined.

(** C10 at the input [H] followed by a superscript two: [isdigit] accepts the
    superscript, [int] does not, and the parser ends in [ValueError] where
    the claim has it return a mapping. *)
Theorem parse_compound_superscript_raises :
  Py.isdigit superscript_two = true
  /\ exists msg,
       _parse_compound (String "H" (String superscript_two ""))
       = Raise (ValueError msg).
Proof. split; [reflexivity|]. eexists. reflexivity. Qed.

(** Every iteration of the main loop moves the index forward, never past the
    end of the string: after a group, to the end [j'] of the subscript read
    at the index [j] the scan for the closing token stops at; after an
    element symbol of one or two characters, to the end [i2] of its
    subscript.  The substring a group hands to the recursive call is shorter
    than what is left of the string. *)
Theorem parser_progress (compound : string) (i : nat) (c : ascii) :
  get i compound = Some c ->
  let j := find_close (Py.drop (i + 1) compound) (i + 1) 1 in
  let j' := snd (read_subscript (Py.drop j compound) "" j) in
  (i < j <= j' /\ j' <= String.length compound)%nat
  /\ (String.length (Py.slice compound (i + 1) (j - 1))
      < String.length compound - i)%nat
  /\ forall i1,
       i1 = (i + 1)%nat
       \/ (i1 = (i + 2)%nat /\ exists c', get (i + 1) compound = Some c') ->
       let i2 := snd (read_subscript (Py.drop i1 compound) "" i1) in
       (i < i1 <= i2 /\ i2 <= String.length compound)%nat.
Proof.
  intros Hget j j'. apply get_some_lt in Hget.
  pose proof (find_close_bounds (Py.drop (i + 1) compound) (i + 1) 1) as Hj.
  rewrite length_drop in Hj. fold j in Hj.
  pose proof (read_subscript_bounds (Py.drop j compound) "" j) as Hj'.
  rewrite length_drop in Hj'. fold j' in Hj'.
  pose proof (length_slice_le compound (i + 1) (j - 1)) as Hsub.
  split; [lia|]. split; [lia|].
  intros i1 Hi1 i2.
  pose proof (read_subscript_bounds (Py.drop i1 compound) "" i1) as Hi2.
  rewrite length_drop in Hi2. fold i2 in Hi2.
  destruct Hi1 as [->|[-> [c' Hc']]]; [lia|].
  apply get_some_lt in Hc'. lia.
Qed.

Lemma parser_progress_witness :
  (2 < 6 <= 7 /\ 7 <= String.length "Ca(OH)2")%nat
  /\ (String.length "OH" < String.length "Ca(OH)2" - 2)%nat
  /\ forall i1,
       i1 = (2 + 1)%nat
       \/ (i1 = (2 + 2)%nat /\ exists c', get (2 + 1) "Ca(OH)2" = Some c') ->
       let i2 := snd (read_subscript (Py.drop i1 "Ca(OH)2") "" i1) in
       (2 < i1 <= i2 /\ i2 <= String.length "Ca(OH)2")%nat.
Proof. exact (parser_progress "Ca(OH)2" 2 "(" eq_refl). Defined.

(** A compound string without an opening token, of at most 4300 characters,
    in which every character [isdigit] accepts is a decimal digit: the parser
    returns a mapping.  (No recursive call is made, and no subscript is
    longer than [int] converts.) *)
Theorem parse_compound_returns_without_groups (compound : string) :
  Py.all_chars not_open compound = true ->
  (String.length compound <= max_str_digits)%nat ->
  Py.all_chars plain compound = true ->
  exists d, _parse_compound compound = Ok d.
Proof. intros _ _ H. apply parse_loop_plain; [lia|exact H]. Qed.

Lemma parse_compound_returns_without_groups_witness :
  exists d, _parse_compound "C6H12O6" = Ok d.
Proof.
  apply (parse_compound_returns_without_groups "C6H12O6").
  - vm_compute. reflexivity.
  - apply Nat.leb_le. vm_compute. reflexivity.
  - vm_compute. reflexivity.
Defined.

(* ================================================================== *)
(** * The equation splitter *)

Lemma prefix_arrow (s : string) :
  prefix arrow s = true ->
  exists t, s = String "-" (String "-" (String ">" t)).
Proof.
  unfold arrow. destruct s as [|a [|b [|c t]]]; cbn [prefix]; try discriminate;
    repeat (match goal with
            | |- context [ascii_dec ?x ?y] => destruct (ascii_dec x y)
            end; try discriminate); subst; eauto.
Qed.

Lemma split_from_length (s : string) : forall skip cur,
  List.length (Py.split_from arrow skip cur s)
  = S (occurrences arrow (Py.drop skip s)).
Proof.
  induction s as [|c s IH]; intros skip cur.
  - destruct skip; reflexivity.
  - destruct skip as [|k]; [|apply IH].
    cbn [Py.split_from Py.drop occurrences].
    destruct (prefix arrow (String c s)) eqn:Hp.
    + cbn [List.length]. rewrite IH.
      destruct (prefix_arrow _ Hp) as [t Ht]. injection Ht as -> ->.
      reflexivity.
    + rewrite IH. reflexivity.
Qed.

Lemma split_from_single (s : string) : forall cur b,
  Py.split_from arrow 0 cur s = [b] -> b = (cur ++ s)%string.
Proof.
  induction s as [|c s IH]; intros cur b; cbn [Py.split_from].
  - intros [= <-]. clear. induction cur; simpl; congruence.
  - destruct (prefix arrow (String c s)).
    + intros [= _ H]. apply (f_equal (@List.length string)) in H.
      rewrite split_from_length in H. discriminate.
    + intros H. apply IH in H. subst b.
      clear. induction cur; simpl; congruence.
Qed.

Lemma split_from_pair (s : string) : forall cur a b,
  Py.split_from arrow 0 cur s = [a; b] ->
  exists lhs, a = (cur ++ lhs)%string /\ s = (lhs ++ arrow ++ b)%string.
Proof.
  induction s as [|c s IH]; intros cur a b; cbn [Py.split_from]; [discriminate|].
  destruct (prefix arrow (String c s)) eqn:Hp.
  - intros [= <- H]. destruct (prefix_arrow _ Hp) as [t Ht].
    injection Ht as -> ->. cbn in H. apply split_from_single in H. subst b.
    exists ""%string. split; [|reflexivity].
    clear. induction cur; simpl; congruence.
  - intros H. apply IH in H. destruct H as [lhs [-> ->]].
    exists (String c lhs). split; [|reflexivity].
    clear. induction cur; simpl; congruence.
Qed.

(** C4 fails as stated: an empty half is not rejected. *)
Lemma parse_equation_accepts_empty_side :
  occurrences arrow (normalize "-->H2O") = 1%nat
  /\ fst (parse_equation __init__ "-->H2O") = Ok ([""%string], ["H2O"%string]).
Proof. split; reflexivity. Qed.

(** C4, amended. The splitter fails exactly when the separator does not occur
    exactly once in the normalized input; when it occurs once, the input is
    [lhs ++ "-->" ++ rhs] and the splitter returns the pieces of [lhs] and of
    [rhs] between ["+"] signs, in order, whether or not a side is empty. *)
Theorem parse_equation_fails_iff (self : ChemicalEquationBalancer)
  (equation : string) :
  (fst (parse_equation self equation)
   = Raise (ValueError "Unable to parse the equation")
   <-> occurrences arrow (normalize equation) <> 1%nat)
  /\ (occurrences arrow (normalize equation) = 1%nat <->
      exists lhs rhs,
        normalize equation = (lhs ++ arrow ++ rhs)%string
        /\ fst (parse_equation self equation)
           = Ok (Py.split lhs "+", Py.split rhs "+")).
Proof.
  unfold parse_equation.
  pose proof (split_from_length (normalize equation) 0 "") as Hlen.
  cbn [Py.drop] in Hlen. fold (Py.split (normalize equation) arrow) in Hlen.
  destruct (Py.split (normalize equation) arrow) as [|a [|b [|c l]]] eqn:Hs;
    cbn [List.length] in Hlen; cbn [fst].
  - discriminate.
  - split; [split; [lia|reflexivity]|].
    split; [lia|]. intros (lhs & rhs & _ & H). discriminate.
  - assert (Hone : occurrences arrow (normalize equation) = 1%nat) by lia.
    split; [split; [discriminate|tauto]|].
    split; [intros _|auto].
    destruct (split_from_pair _ _ _ _ Hs) as [lhs [-> ->]].
    exists lhs, b. auto.
  - split; [split; [lia|reflexivity]|].
    split; [lia|]. intros (lhs & rhs & _ & H). discriminate.
Qed.

(* ================================================================== *)
(** * The state of the balancer *)

(** C9 fails as stated: [balance] overwrites the field [compounds]. *)
Lemma balance_overwrites_compounds :
  snd (balance first_occurrences __init__ "H2+O2-->H2O")
  = {| elements := []; compounds := ["H2"; "O2"; "H2O"]%string |}
  /\ snd (balance first_occurrences __init__ "H2+O2-->H2O") <> __init__.
Proof.
  assert (E : snd (balance first_occurrences __init__ "H2+O2-->H2O")
              = {| elements := []; compounds := ["H2"; "O2"; "H2O"]%string |})
    by (vm_compute; reflexivity).
  split; [exact E|]. rewrite E. discriminate.
Qed.

(** C9, amended. A call to [balance] never changes the field [elements]; it
    leaves [compounds] as it was when the split fails and sets it to
    [reactants + products] when the split succeeds; and its result does not
    depend on the balancer's state before the call. *)
Theorem balance_frame (list_of_set : list string -> list string)
  (self : ChemicalEquationBalancer) (equation : string) :
  elements (snd (balance list_of_set self equation)) = elements self
  /\ match fst (parse_equation self equation) with
     | Ok (reactants, products) =>
         compounds (snd (balance list_of_set self equation))
         = reactants ++ products
     | Raise _ =>
         compounds (snd (balance list_of_set self equation)) = compounds self
     end
  /\ forall other : ChemicalEquationBalancer,
       fst (balance list_of_set other equation)
       = fst (balance list_of_set self equation).
Proof.
  unfold balance, parse_equation.
  destruct (Py.split (normalize equation) arrow) as [|a [|b [|c l]]];
    cbn; auto.
Qed.

(* ================================================================== *)
(** * Exact rationals *)

Section Rationals.

Local Open Scope Qc_scope.

Lemma Integer_add (a b : Z) :
  Sympy.Integer (a + b) = Sympy.Integer a + Sympy.Integer b.
Proof.
  unfold Sympy.Integer. apply Qc_is_canon. cbn [this Q2Qc Qcplus].
  rewrite !Qred_correct, inject_Z_plus. reflexivity.
Qed.

Lemma Integer_mul (a b : Z) :
  Sympy.Integer (a * b) = Sympy.Integer a * Sympy.Integer b.
Proof.
  unfold Sympy.Integer. apply Qc_is_canon. cbn [this Q2Qc Qcmult].
  rewrite !Qred_correct, inject_Z_mult. reflexivity.
Qed.

Lemma Integer_opp (a : Z) : Sympy.Integer (- a) = - Sympy.Integer a.
Proof.
  unfold Sympy.Integer. apply Qc_is_canon. cbn [this Q2Qc Qcopp].
  rewrite !Qred_correct. reflexivity.
Qed.

Lemma Integer_inj (a b : Z) : Sympy.Integer a = Sympy.Integer b -> a = b.
Proof.
  unfold Sympy.Integer. intros H. apply Q2Qc_eq_iff in H.
  now apply inject_Z_injective.
Qed.

Lemma Integer_0 : Sympy.Integer 0 = 0.
Proof. reflexivity. Qed.

Lemma this_Integer (k : Z) : this (Sympy.Integer k) = inject_Z k.
Proof.
  unfold Sympy.Integer. cbn [this Q2Qc]. apply Qred_identity.
  cbn. apply Z.gcd_1_r.
Qed.

Lemma to_int_Integer (k : Z) : Sympy.to_int (Sympy.Integer k) = k.
Proof.
  unfold Sympy.to_int, Sympy.p, Sympy.q. rewrite this_Integer. simpl.
  apply Z.quot_1_r.
Qed.

Lemma is_zero_spec (x : Qc) : Sympy.is_zero x = true <-> x = 0.
Proof.
  unfold Sympy.is_zero, Sympy.p. rewrite Z.eqb_eq. split.
  - intros H. apply Qc_is_canon. unfold Qeq. simpl. rewrite H. reflexivity.
  - intros ->. reflexivity.
Qed.

(** A rational times a multiple of its denominator is an integer. *)
Lemma mul_denominator_multiple (x : Qc) (L : Z) :
  (Sympy.q x | L)%Z ->
  Sympy.Integer (Sympy.to_int (x * Sympy.Integer L)) = x * Sympy.Integer L.
Proof.
  intros [m Hm].
  assert (E : x * Sympy.Integer L = Sympy.Integer (Sympy.p x * m)).
  { apply Qc_is_canon. unfold Sympy.Integer. cbn [this Q2Qc Qcmult].
    rewrite !Qred_correct. subst L. unfold Sympy.p, Sympy.q.
    destruct (this x) as [n d]. unfold Qeq. cbn. lia. }
  rewrite E, to_int_Integer. reflexivity.
Qed.

End Rationals.

(* ================================================================== *)
(** * Rows and inner products *)

Section Rows.

Local Open Scope Qc_scope.

Lemma entry_nil (j : nat) : Sympy.entry [] j = 0.
Proof. destruct j; reflexivity. Qed.

Lemma entry_beyond (r : Sympy.row) (j : nat) :
  (List.length r <= j)%nat -> Sympy.entry r j = 0.
Proof. intros H. unfold Sympy.entry. now apply nth_overflow. Qed.

Lemma length_scale_row (k : Qc) (r : Sympy.row) :
  List.length (Sympy.scale_row k r) = List.length r.
Proof. apply length_map. Qed.

Lemma length_sub_row (r1 r2 : Sympy.row) :
  List.length r1 = List.length r2 ->
  List.length (Sympy.sub_row r1 r2) = List.length r1.
Proof.
  intros H. unfold Sympy.sub_row. rewrite length_map, length_combine. lia.
Qed.

Lemma length_cross_cancel (c : nat) (prow r : Sympy.row) :
  List.length r = List.length prow ->
  List.length (Sympy.cross_cancel c prow r) = List.length r.
Proof.
  intros H. unfold Sympy.cross_cancel.
  apply length_sub_row. now rewrite length_scale_row.
Qed.

Lemma entry_scale_row (k : Qc) (r : Sympy.row) : forall j,
  Sympy.entry (Sympy.scale_row k r) j = k * Sympy.entry r j.
Proof.
  unfold Sympy.entry, Sympy.scale_row.
  induction r as [|x r IH]; intros [|j]; simpl; auto; ring.
Qed.

Lemma entry_sub_row (r1 : Sympy.row) : forall r2 j,
  List.length r1 = List.length r2 ->
  Sympy.entry (Sympy.sub_row r1 r2) j = Sympy.entry r1 j - Sympy.entry r2 j.
Proof.
  unfold Sympy.entry, Sympy.sub_row.
  induction r1 as [|x r1 IH]; intros [|y r2] [|j] H; simpl in *;
    try discriminate; try ring.
  apply IH. lia.
Qed.

Lemma entry_cross_cancel (c : nat) (prow r : Sympy.row) (j : nat) :
  List.length r = List.length prow ->
  Sympy.entry (Sympy.cross_cancel c prow r) j
  = Sympy.entry r j - Sympy.entry r c * Sympy.entry prow j.
Proof.
  intros H. unfold Sympy.cross_cancel.
  rewrite entry_sub_row by now rewrite length_scale_row.
  now rewrite entry_scale_row.
Qed.

Lemma dot_scale_row (k : Qc) (r : Sympy.row) : forall v,
  dot (Sympy.scale_row k r) v = k * dot r v.
Proof.
  induction r as [|x r IH]; intros [|y v]; simpl; try ring.
  fold (Sympy.scale_row k r). rewrite IH. ring.
Qed.

Lemma dot_sub_row (r1 : Sympy.row) : forall r2 v,
  List.length r1 = List.length r2 ->
  dot (Sympy.sub_row r1 r2) v = dot r1 v - dot r2 v.
Proof.
  induction r1 as [|x r1 IH]; intros [|y r2] [|z v] H; simpl in *;
    try discriminate; try ring.
  fold (Sympy.sub_row r1 r2). rewrite IH by lia. ring.
Qed.

Lemma dot_cross_cancel (c : nat) (prow r v : Sympy.row) :
  List.length r = List.length prow ->
  dot (Sympy.cross_cancel c prow r) v
  = dot r v - Sympy.entry r c * dot prow v.
Proof.
  intros H. unfold Sympy.cross_cancel.
  rewrite dot_sub_row by now rewrite length_scale_row.
  now rewrite dot_scale_row.
Qed.

Lemma length_sub_at (vec : Sympy.row) : forall j x,
  List.length (Sympy.sub_at vec j x) = List.length vec.
Proof.
  induction vec as [|y vec IH]; intros [|j] x; simpl; auto.
Qed.

Lemma entry_sub_at_other (vec : Sympy.row) : forall j x f,
  j <> f -> Sympy.entry (Sympy.sub_at vec j x) f = Sympy.entry vec f.
Proof.
  unfold Sympy.entry.
  induction vec as [|y vec IH]; intros [|j] x [|f] H; simpl; auto;
    try congruence.
Qed.

Lemma dot_sub_at (r : Sympy.row) : forall vec j x,
  List.length r = List.length vec ->
  dot r (Sympy.sub_at vec j x) = dot r vec - Sympy.entry r j * x.
Proof.
  unfold Sympy.entry.
  induction r as [|a r IH]; intros [|y vec] [|j] x H; simpl in *;
    try discriminate; try ring.
  rewrite IH by lia. ring.
Qed.

Lemma length_unit_vector (n f : nat) :
  List.length (Sympy.unit_vector n f) = n.
Proof. unfold Sympy.unit_vector. now rewrite length_map, length_seq. Qed.

Lemma nth_map_in_range (g : nat -> Qc) (l : list nat) : forall j,
  (j < List.length l)%nat -> nth j (map g l) 0 = g (nth j l O).
Proof.
  induction l as [|a l IH]; intros [|j] H; simpl in *; try lia; auto.
  apply IH. lia.
Qed.

Lemma entry_unit_vector (n f j : nat) :
  Sympy.entry (Sympy.unit_vector n f) j
  = if (j <? n)%nat && (j =? f)%nat then 1 else 0.
Proof.
  unfold Sympy.entry, Sympy.unit_vector.
  destruct (Nat.ltb_spec j n) as [Hlt|Hge]; cbn [andb].
  - rewrite nth_map_in_range by now rewrite length_seq.
    now rewrite seq_nth.
  - apply nth_overflow. now rewrite length_map, length_seq.
Qed.

Lemma dot_map_shift (g : nat -> Qc) (r : Sympy.row) : forall s,
  dot r (map g (seq s (List.length r)))
  = fold_right Qcplus 0
      (map (fun j => Sympy.entry r (j - s) * g j) (seq s (List.length r))).
Proof.
  induction r as [|x r IH]; intros s; simpl; auto.
  rewrite IH, Nat.sub_diag. unfold Sympy.entry at 2. simpl. f_equal.
  f_equal. apply map_ext_in. intros j Hj. apply in_seq in Hj.
  replace (j - s)%nat with (S (j - S s)) by lia. reflexivity.
Qed.

Lemma sum_single (g : nat -> Qc) (f : nat) (a : Qc) : forall n s,
  (forall j, j <> f -> g j = 0) -> g f = a ->
  fold_right Qcplus 0 (map g (seq s n))
  = if (s <=? f)%nat && (f <? s + n)%nat then a else 0.
Proof.
  induction n as [|n IH]; intros s Hz Hf; simpl.
  - destruct (Nat.leb_spec s f), (Nat.ltb_spec f (s + 0)); simpl; auto; lia.
  - rewrite (IH (S s) Hz Hf).
    destruct (Nat.eq_dec s f) as [->|Hne].
    + rewrite Hf.
      destruct (Nat.leb_spec (S f) f), (Nat.leb_spec f f),
        (Nat.ltb_spec f (f + S n)); simpl; try lia. ring.
    + rewrite (Hz s Hne).
      destruct (Nat.leb_spec (S s) f), (Nat.leb_spec s f),
        (Nat.ltb_spec f (S s + n)), (Nat.ltb_spec f (s + S n)); simpl;
        try lia; ring.
Qed.

Lemma dot_unit_vector (r : Sympy.row) (f : nat) :
  dot r (Sympy.unit_vector (List.length r) f) = Sympy.entry r f.
Proof.
  unfold Sympy.unit_vector. rewrite dot_map_shift.
  rewrite (sum_single _ f (Sympy.entry r f)).
  - simpl. destruct (Nat.ltb_spec f (List.length r)); auto.
    symmetry. now apply entry_beyond.
  - intros j Hj. destruct (Nat.eqb_spec j f); [contradiction|ring].
  - rewrite Nat.sub_0_r, Nat.eqb_refl. ring.
Qed.

End Rows.

(* ================================================================== *)
(** * The elimination *)

Section Elimination.

Local Open Scope Qc_scope.

Lemma find_pivot_some (c : nat) (rest : list Sympy.row) :
  forall before pr after,
  Sympy.find_pivot c rest = Some (before, pr, after) ->
  rest = before ++ pr :: after
  /\ (forall r, In r before -> Sympy.entry r c = 0)
  /\ Sympy.entry pr c <> 0.
Proof.
  induction rest as [|r rest IH]; intros before pr after; simpl; [discriminate|].
  destruct (Sympy.is_zero (Sympy.entry r c)) eqn:Hz.
  - destruct (Sympy.find_pivot c rest) as [[[b p0] a]|]; [|discriminate].
    intros [= <- <- <-]. destruct (IH _ _ _ eq_refl) as (-> & Hb & Hp).
    split; [reflexivity|]. split; [|exact Hp].
    intros r0 [<-|Hin]; [now apply is_zero_spec|auto].
  - intros [= <- <- <-]. split; [reflexivity|]. split; [intros r0 []|].
    intros H. apply is_zero_spec in H. congruence.
Qed.

Lemma find_pivot_none (c : nat) (rest : list Sympy.row) :
  Sympy.find_pivot c rest = None ->
  forall r, In r rest -> Sympy.entry r c = 0.
Proof.
  induction rest as [|r rest IH]; simpl; [intros _ r0 []|].
  destruct (Sympy.is_zero (Sympy.entry r c)) eqn:Hz; [|discriminate].
  destruct (Sympy.find_pivot c rest) as [[[b p0] a]|]; [discriminate|].
  intros _ r0 [<-|Hin]; [now apply is_zero_spec|auto].
Qed.

Lemma in_after_swap (before after : list Sympy.row) (r : Sympy.row) :
  In r (Sympy.after_swap before after) <-> In r before \/ In r after.
Proof.
  destruct before as [|r0 mid]; simpl; [tauto|].
  rewrite in_app_iff. simpl. tauto.
Qed.

Lemma combine_app_same {A B : Type} (l1 : list A) : forall (l1' : list B) l2 l2',
  List.length l1 = List.length l1' ->
  combine (l1 ++ l2) (l1' ++ l2') = combine l1 l1' ++ combine l2 l2'.
Proof.
  induction l1 as [|a l1 IH]; intros [|b l1'] l2 l2' H; simpl in *;
    try discriminate; auto.
  f_equal. apply IH. lia.
Qed.

Lemma combine_map_fst {A B C : Type} (g : A -> C) (l : list A) :
  forall l' : list B,
  combine (map g l) l' = map (fun ab => (g (fst ab), snd ab)) (combine l l').
Proof.
  induction l as [|a l IH]; intros [|b l']; simpl; auto. now rewrite IH.
Qed.

(** One column of the elimination keeps the invariant, and every vector in
    the null space of the new rows is in the null space of the old ones. *)
Lemma rref_step_inv (n c : nat) (st : list Sympy.row * list nat * list Sympy.row) :
  rref_inv n c st ->
  rref_inv n (S c) (Sympy.rref_step st c)
  /\ forall v, in_kernel (rows_of (Sympy.rref_step st c)) v ->
               in_kernel (rows_of st) v.
Proof.
  destruct st as [[done pivots] rest].
  intros (Hlen & Hpairs & Hlt & Hzero & Hunit).
  unfold Sympy.rref_step.
  destruct (Sympy.find_pivot c rest) as [[[before pr] after]|] eqn:Hfind.
  2:{ split; [|auto]. repeat split; auto.
      - intros p Hp. specialize (Hlt p Hp). lia.
      - intros r j Hr Hj. destruct (Nat.eq_dec j c) as [->|Hne].
        + now apply (find_pivot_none _ _ Hfind).
        + apply Hzero; auto. lia. }
  destruct (find_pivot_some _ _ _ _ _ Hfind) as (-> & Hbefore & Hpivot).
  set (prow := Sympy.scale_row (/ Sympy.entry pr c) pr).
  assert (Hpr : List.length pr = n).
  { apply Hlen. rewrite !in_app_iff. simpl. auto. }
  assert (Hprow : List.length prow = n).
  { unfold prow. now rewrite length_scale_row. }
  assert (Hprow_c : Sympy.entry prow c = 1).
  { unfold prow. rewrite entry_scale_row. now field. }
  assert (Hprow_lt : forall j, (j < c)%nat -> Sympy.entry prow j = 0).
  { intros j Hj. unfold prow. rewrite entry_scale_row.
    rewrite (Hzero pr j); [ring| |exact Hj].
    rewrite in_app_iff. simpl. auto. }
  assert (Hin_rest : forall r, In r (Sympy.after_swap before after) ->
                               In r (before ++ pr :: after)).
  { intros r Hr. apply in_after_swap in Hr. rewrite in_app_iff. simpl. tauto. }
  split.
  - repeat split.
    + intros r Hr. rewrite !in_app_iff in Hr.
      destruct Hr as [[Hr|[<-|[]]]|Hr]; auto.
      * apply in_map_iff in Hr. destruct Hr as (r0 & <- & Hr0).
        rewrite length_cross_cancel; rewrite ?Hprow; apply Hlen;
          rewrite in_app_iff; auto.
      * apply in_map_iff in Hr. destruct Hr as (r0 & <- & Hr0).
        rewrite length_cross_cancel; rewrite ?Hprow; apply Hlen;
          rewrite in_app_iff; auto.
    + rewrite !length_app, length_map. simpl. lia.
    + intros p Hp. apply in_app_iff in Hp. destruct Hp as [Hp|[<-|[]]]; [|lia].
      specialize (Hlt p Hp). lia.
    + intros r j Hr Hj. apply in_map_iff in Hr. destruct Hr as (r0 & <- & Hr0).
      apply Hin_rest in Hr0.
      rewrite entry_cross_cancel
        by (rewrite Hprow; apply Hlen; rewrite in_app_iff; auto).
      destruct (Nat.eq_dec j c) as [->|Hne].
      * rewrite Hprow_c. ring.
      * rewrite (Hzero r0 j), Hprow_lt by (auto; lia). ring.
    + rewrite combine_app_same by (rewrite length_map; exact Hpairs).
      rewrite combine_map_fst. simpl combine.
      set (dp := combine done pivots) in *.
      assert (Hdp : forall i d p, nth_error dp i = Some (d, p) ->
                                  List.length d = n /\ (p < c)%nat).
      { intros i d p H. apply nth_error_In in H. subst dp. split.
        - apply Hlen. rewrite in_app_iff. left. eapply in_combine_l, H.
        - apply Hlt. eapply in_combine_r, H. }
      assert (Hnth : forall i d p,
                nth_error (map (fun ab => (Sympy.cross_cancel c prow (fst ab), snd ab)) dp
                             ++ [(prow, c)]) i = Some (d, p) ->
                (exists d0, nth_error dp i = Some (d0, p)
                            /\ d = Sympy.cross_cancel c prow d0)
                \/ (i = List.length dp /\ d = prow /\ p = c)).
      { intros i d p H. destruct (Nat.lt_ge_cases i (List.length dp)) as [Hi|Hi].
        - rewrite nth_error_app1 in H by now rewrite length_map.
          rewrite nth_error_map in H.
          destruct (nth_error dp i) as [[d0 p0]|]; [|discriminate].
          simpl in H. injection H as <- <-. left. eauto.
        - rewrite nth_error_app2 in H by now rewrite length_map.
          rewrite length_map in H.
          destruct (i - List.length dp)%nat as [|m] eqn:E.
          + simpl in H. injection H as <- <-. right. split; [lia|auto].
          + simpl in H. destruct m; discriminate. }
      intros i k d p d' p' Hi Hk.
      apply Hnth in Hi, Hk.
      destruct Hi as [(d0 & Hi & ->)|(-> & -> & ->)],
               Hk as [(d0' & Hk & ->)|(-> & -> & ->)].
      * destruct (Hdp _ _ _ Hi) as [Hd0 _], (Hdp _ _ _ Hk) as [_ Hp'].
        rewrite entry_cross_cancel by now rewrite Hprow.
        rewrite (Hprow_lt p' Hp'), (Hunit _ _ _ _ _ _ Hi Hk). ring.
      * destruct (Hdp _ _ _ Hi) as [Hd0 _].
        rewrite entry_cross_cancel by now rewrite Hprow.
        rewrite Hprow_c.
        assert (i <> List.length dp).
        { assert (i < List.length dp)%nat; [|lia].
          apply nth_error_Some. congruence. }
        destruct (Nat.eqb_spec i (List.length dp)); [contradiction|ring].
      * destruct (Hdp _ _ _ Hk) as [_ Hp'].
        rewrite (Hprow_lt p' Hp').
        assert (List.length dp <> k).
        { assert (k < List.length dp)%nat; [|lia].
          apply nth_error_Some. congruence. }
        destruct (Nat.eqb_spec (List.length dp) k); [contradiction|reflexivity].
      * rewrite Nat.eqb_refl. exact Hprow_c.
  - intros v Hv. unfold in_kernel, rows_of in *.
    assert (Hprow_v : dot prow v = 0).
    { apply Hv. rewrite !in_app_iff. simpl. auto. }
    assert (Hcc : forall r, List.length r = n ->
                            dot (Sympy.cross_cancel c prow r) v = 0 ->
                            dot r v = 0).
    { intros r Hr H. rewrite dot_cross_cancel, Hprow_v in H
        by now rewrite Hprow.
      rewrite <- H. ring. }
    intros r Hr. pose proof (Hlen r Hr) as Hrn.
    rewrite in_app_iff in Hr. destruct Hr as [Hr|Hr].
    + apply Hcc; auto. apply Hv. rewrite !in_app_iff. left. left.
      now apply in_map.
    + apply in_app_iff in Hr. simpl in Hr.
      assert (Hcase : r = pr \/ In r (Sympy.after_swap before after)).
      { rewrite in_after_swap. destruct Hr as [Hr|[Hr|Hr]]; auto. }
      destruct Hcase as [->|Hr'].
      * unfold prow in Hprow_v. rewrite dot_scale_row in Hprow_v.
        apply Qcmult_integral in Hprow_v. destruct Hprow_v as [H|H]; auto.
        exfalso. apply Hpivot.
        assert (E : Sympy.entry pr c * / Sympy.entry pr c = 1)
          by now apply Qcmult_inv_r.
        rewrite H in E. rewrite Qcmult_0_r in E. discriminate.
      * apply Hcc; auto. apply Hv. rewrite !in_app_iff. right.
        now apply in_map.
Qed.

Lemma rref_fold_inv (n : nat) : forall k c st,
  rref_inv n c st ->
  rref_inv n (c + k) (fold_left Sympy.rref_step (seq c k) st)
  /\ forall v, in_kernel (rows_of (fold_left Sympy.rref_step (seq c k) st)) v ->
               in_kernel (rows_of st) v.
Proof.
  induction k as [|k IH]; intros c st Hinv; simpl.
  - rewrite Nat.add_0_r. auto.
  - destruct (rref_step_inv n c st Hinv) as [Hinv' Hker'].
    destruct (IH (S c) _ Hinv') as [Hinv'' Hker''].
    replace (c + S k)%nat with (S c + k)%nat by lia. auto.
Qed.

Lemma rref_state_inv (M : Sympy.matrix) :
  well_formed M ->
  rref_inv (Sympy.cols M) (Sympy.cols M) (Sympy.rref_state M)
  /\ forall v, in_kernel (rows_of (Sympy.rref_state M)) v ->
               in_kernel (Sympy.data M) v.
Proof.
  intros Hwf. unfold Sympy.rref_state.
  apply (rref_fold_inv (Sympy.cols M) (Sympy.cols M) 0 ([], [], Sympy.data M)).
  repeat split; simpl; auto; try (intros; lia); try contradiction.
  intros i k d p d' p' H. destruct i; discriminate.
Qed.

End Elimination.

(* ================================================================== *)
(** * The null space *)

Section NullSpace.

Local Open Scope Qc_scope.

(** Back substitution read off the pivot rows themselves. *)
Lemma basis_fold_rows (f : nat) (done : list Sympy.row) :
  forall pre pivots rest vec,
  List.length done = List.length pivots ->
  fold_left
    (fun vec '(piv_row, piv_col) =>
       Sympy.sub_at vec piv_col
         (Sympy.entry (nth piv_row (pre ++ done ++ rest) []) f))
    (combine (seq (List.length pre) (List.length pivots)) pivots) vec
  = fold_left (fun vec '(d, p) => Sympy.sub_at vec p (Sympy.entry d f))
              (combine done pivots) vec.
Proof.
  induction done as [|d done IH]; intros pre [|p pivots] rest vec H;
    simpl in *; try discriminate; auto.
  rewrite nth_middle.
  specialize (IH (pre ++ [d]) pivots rest
                 (Sympy.sub_at vec p (Sympy.entry d f)) ltac:(lia)).
  rewrite length_app, Nat.add_1_r, <- app_assoc in IH. exact IH.
Qed.

Lemma length_fold_sub_at (f : nat) (dp : list (Sympy.row * nat)) : forall vec,
  List.length
    (fold_left (fun vec '(d, p) => Sympy.sub_at vec p (Sympy.entry d f)) dp vec)
  = List.length vec.
Proof.
  induction dp as [|[d p] dp IH]; intros vec; simpl; auto.
  now rewrite IH, length_sub_at.
Qed.

Lemma dot_fold_sub_at (f : nat) (r : Sympy.row) (dp : list (Sympy.row * nat)) :
  forall vec, List.length r = List.length vec ->
  dot r (fold_left (fun vec '(d, p) => Sympy.sub_at vec p (Sympy.entry d f))
                   dp vec)
  = dot r vec - pivot_sum r f dp.
Proof.
  induction dp as [|[d p] dp IH]; intros vec H; simpl; [ring|].
  rewrite IH by now rewrite length_sub_at.
  rewrite dot_sub_at by exact H. ring.
Qed.

Lemma pivot_sum_zero (r : Sympy.row) (f : nat) (dp : list (Sympy.row * nat)) :
  (forall d p, In (d, p) dp -> Sympy.entry r p = 0) ->
  pivot_sum r f dp = 0.
Proof.
  induction dp as [|[d p] dp IH]; intros H; simpl; auto.
  rewrite (H d p) by (left; reflexivity).
  rewrite IH by (intros; eapply H; right; eauto). ring.
Qed.

Lemma pivot_sum_unit (r : Sympy.row) (f : nat) (dp : list (Sympy.row * nat)) :
  forall i p,
  nth_error dp i = Some (r, p) ->
  (forall k d' p', nth_error dp k = Some (d', p') ->
                   Sympy.entry r p' = if (i =? k)%nat then 1 else 0) ->
  pivot_sum r f dp = Sympy.entry r f.
Proof.
  induction dp as [|[d0 p0] dp IH]; intros [|i] p Hi H; simpl in *;
    try discriminate.
  - injection Hi as -> ->.
    rewrite (H 0%nat r p eq_refl). simpl.
    rewrite pivot_sum_zero; [ring|].
    intros d' p' Hin. apply In_nth_error in Hin. destruct Hin as [k Hk].
    exact (H (S k) d' p' Hk).
  - rewrite (H 0%nat d0 p0 eq_refl). simpl.
    rewrite (IH i p Hi); [ring|].
    intros k d' p' Hk. exact (H (S k) d' p' Hk).
Qed.

Lemma dot_zero_row (r : Sympy.row) : forall v,
  (forall j, (j < List.length r)%nat -> Sympy.entry r j = 0) ->
  dot r v = 0.
Proof.
  induction r as [|x r IH]; intros [|y v] H; simpl; auto.
  rewrite (IH v).
  - specialize (H 0%nat ltac:(simpl; lia)). unfold Sympy.entry in H.
    simpl in H. rewrite H. ring.
  - intros j Hj. apply (H (S j)). simpl. lia.
Qed.

Lemma free_vars_spec (pivots : list nat) (n f : nat) :
  In f (Sympy.free_vars pivots n) <-> (f < n)%nat /\ ~ In f pivots.
Proof.
  unfold Sympy.free_vars. rewrite filter_In, in_seq, negb_true_iff.
  split; intros [H1 H2]; split; try lia.
  - intros Hin. assert (E : existsb (Nat.eqb f) pivots = true).
    { apply existsb_exists. exists f. split; auto. apply Nat.eqb_refl. }
    congruence.
  - destruct (existsb (Nat.eqb f) pivots) eqn:E; auto.
    apply existsb_exists in E. destruct E as (x & Hx & Hfx).
    apply Nat.eqb_eq in Hfx. subst x. contradiction.
Qed.

Lemma length_basis_vector (reduced : list Sympy.row) (pivots : list nat)
  (n f : nat) :
  List.length (Sympy.basis_vector reduced pivots n f) = n.
Proof.
  unfold Sympy.basis_vector.
  generalize (combine (seq 0 (List.length pivots)) pivots) as ip.
  pose proof (length_unit_vector n f) as Hvec. revert Hvec.
  generalize (Sympy.unit_vector n f) as vec.
  intros vec Hvec ip. revert vec Hvec.
  induction ip as [|[i p] ip IH]; intros vec Hvec; simpl; auto.
  apply IH. now rewrite length_sub_at.
Qed.

Lemma entry_basis_vector_free (reduced : list Sympy.row) (pivots : list nat)
  (n f : nat) :
  In f (Sympy.free_vars pivots n) ->
  Sympy.entry (Sympy.basis_vector reduced pivots n f) f = 1.
Proof.
  intros Hf. apply free_vars_spec in Hf. destruct Hf as [Hlt Hnot].
  unfold Sympy.basis_vector.
  assert (Hip : forall i p,
             In (i, p) (combine (seq 0 (List.length pivots)) pivots) -> p <> f).
  { intros i p H E. subst p. apply in_combine_r in H. contradiction. }
  revert Hip. generalize (combine (seq 0 (List.length pivots)) pivots) as ip.
  assert (Hvec : Sympy.entry (Sympy.unit_vector n f) f = 1).
  { rewrite entry_unit_vector, Nat.eqb_refl.
    destruct (Nat.ltb_spec f n); [reflexivity|lia]. }
  revert Hvec. generalize (Sympy.unit_vector n f) as vec.
  intros vec Hvec ip. revert vec Hvec.
  induction ip as [|[i p] ip IH]; intros vec Hvec Hip; simpl; auto.
  apply IH.
  - rewrite entry_sub_at_other; auto. apply (Hip i p). left. reflexivity.
  - intros i' p' H. apply (Hip i' p'). right. exact H.
Qed.

(** Every vector [nullspace] returns is in the null space of the matrix. *)
Lemma nullspace_sound (M : Sympy.matrix) (v : Sympy.row) :
  well_formed M -> In v (Sympy.nullspace M) -> in_kernel (Sympy.data M) v.
Proof.
  intros Hwf Hv. destruct (rref_state_inv M Hwf) as [Hinv Hker].
  apply Hker. clear Hker.
  unfold Sympy.nullspace, Sympy.rref in Hv.
  destruct (Sympy.rref_state M) as [[done pivots] rest].
  destruct Hinv as (Hlen & Hpairs & Hlt & Hzero & Hunit).
  apply in_map_iff in Hv. destruct Hv as (f & <- & Hf).
  unfold Sympy.basis_vector.
  pose proof (basis_fold_rows f done [] pivots rest
                (Sympy.unit_vector (Sympy.cols M) f) Hpairs) as E.
  simpl in E. rewrite E. clear E.
  intros r Hr. unfold rows_of in Hr. pose proof (Hlen r Hr) as Hrn.
  rewrite dot_fold_sub_at by now rewrite length_unit_vector.
  rewrite <- Hrn, dot_unit_vector.
  apply in_app_iff in Hr. destruct Hr as [Hr|Hr].
  - apply In_nth_error in Hr. destruct Hr as [i Hi].
    assert (Hip : exists p, nth_error (combine done pivots) i = Some (r, p)).
    { assert (Hi' : (i < List.length pivots)%nat).
      { rewrite <- Hpairs. apply nth_error_Some. congruence. }
      apply nth_error_Some in Hi'.
      destruct (nth_error pivots i) as [p|] eqn:Hp; [|congruence].
      exists p. clear - Hi Hp. revert i pivots Hi Hp.
      induction done as [|d done IH]; intros [|i] [|q pivots] Hi Hp;
        simpl in *; try discriminate; try congruence. eauto. }
    destruct Hip as [p Hp].
    rewrite (pivot_sum_unit r f _ i p Hp); [ring|].
    intros k d' p' Hk. exact (Hunit _ _ _ _ _ _ Hp Hk).
  - rewrite pivot_sum_zero.
    + rewrite (Hzero r f Hr); [ring|].
      apply free_vars_spec in Hf. tauto.
    + intros d p Hin. apply Hzero; auto. apply Hlt. eapply in_combine_r, Hin.
Qed.

Lemma nullspace_length (M : Sympy.matrix) (v : Sympy.row) :
  In v (Sympy.nullspace M) -> List.length v = Sympy.cols M.
Proof.
  unfold Sympy.nullspace. destruct (Sympy.rref M) as [reduced pivots].
  intros H. apply in_map_iff in H. destruct H as (f & <- & _).
  apply length_basis_vector.
Qed.


(** Every vector [nullspace] returns holds a one: it is not the null vector. *)
Lemma nullspace_has_one (M : Sympy.matrix) (v : Sympy.row) :
  In v (Sympy.nullspace M) -> In 1 v.
Proof.
  unfold Sympy.nullspace. destruct (Sympy.rref M) as [reduced pivots].
  intros H. apply in_map_iff in H. destruct H as (f & <- & Hf).
  pose proof (entry_basis_vector_free reduced pivots (Sympy.cols M) f Hf) as E.
  rewrite <- E. unfold Sympy.entry. apply nth_In.
  rewrite length_basis_vector. apply free_vars_spec in Hf. tauto.
Qed.

End NullSpace.

(* ================================================================== *)
(** * Integer normalization of the solution *)

Lemma fold_lcm_spec (l : list Z) : forall a,
  0 < a -> (forall d, In d l -> 0 < d) ->
  0 < fold_left Sympy.ilcm l a
  /\ (a | fold_left Sympy.ilcm l a)
  /\ forall d, In d l -> (d | fold_left Sympy.ilcm l a).
Proof.
  unfold Sympy.ilcm.
  induction l as [|x l IH]; intros a Ha Hl; simpl.
  - repeat split; auto; [exists 1; lia|contradiction].
  - assert (Hx : 0 < x) by (apply Hl; left; reflexivity).
    assert (Hlcm : 0 < Z.lcm a x).
    { pose proof (Z.lcm_nonneg a x).
      assert (Z.lcm a x <> 0); [|lia].
      intros E. apply Z.lcm_eq_0 in E. lia. }
    destruct (IH (Z.lcm a x) Hlcm) as (H1 & H2 & H3).
    { intros d Hd. apply Hl. right. exact Hd. }
    repeat split; auto.
    + eapply Z.divide_trans; [apply Z.divide_lcm_l|exact H2].
    + intros d [<-|Hd]; auto.
      eapply Z.divide_trans; [apply Z.divide_lcm_r|exact H2].
Qed.

Lemma fold_gcd_abs (cs : list Z) : forall c0,
  Z.abs (fold_left Z.gcd cs c0) = gcd_list (c0 :: cs).
Proof.
  unfold gcd_list.
  induction cs as [|c cs IH]; intros c0; simpl.
  - now rewrite Z.gcd_0_r.
  - rewrite IH. simpl. now rewrite Z.gcd_assoc.
Qed.

Lemma fold_gcd_nonneg (cs : list Z) : forall c0,
  cs <> [] \/ 0 <= c0 -> 0 <= fold_left Z.gcd cs c0.
Proof.
  induction cs as [|c cs IH]; intros c0 H; simpl.
  - destruct H; [contradiction|auto].
  - apply IH. right. apply Z.gcd_nonneg.
Qed.

Lemma gcd_list_divides (l : list Z) : forall c, In c l -> (gcd_list l | c).
Proof.
  unfold gcd_list.
  induction l as [|x l IH]; intros c; simpl; [contradiction|].
  intros [<-|Hc].
  - apply Z.gcd_divide_l.
  - eapply Z.divide_trans; [apply Z.gcd_divide_r|auto].
Qed.

Lemma gcd_list_nonneg (l : list Z) : 0 <= gcd_list l.
Proof.
  unfold gcd_list. destruct l; simpl; [lia|apply Z.gcd_nonneg].
Qed.

Lemma gcd_list_zero (l : list Z) :
  gcd_list l = 0 -> forall c, In c l -> c = 0.
Proof.
  intros H c Hc. pose proof (gcd_list_divides l c Hc) as [k Hk]. lia.
Qed.

Lemma gcd_list_scale (g : Z) (l : list Z) :
  0 <= g -> gcd_list (map (Z.mul g) l) = g * gcd_list l.
Proof.
  unfold gcd_list. intros Hg. induction l as [|x l IH]; simpl; [lia|].
  rewrite IH. now apply Z.gcd_mul_mono_l_nonneg.
Qed.

(** Dividing a vector by the greatest common divisor of its entries leaves
    a vector whose entries have no common divisor. *)
Lemma gcd_list_div (l : list Z) :
  0 < gcd_list l -> gcd_list (map (fun c => c / gcd_list l) l) = 1.
Proof.
  intros Hg. set (g := gcd_list l) in *.
  assert (E : map (Z.mul g) (map (fun c => c / g) l) = l).
  { rewrite map_map. rewrite <- (map_id l) at 2. apply map_ext_in.
    intros c Hc. destruct (gcd_list_divides l c Hc) as [k Hk]. fold g in Hk.
    subst c. rewrite Z.div_mul by lia. lia. }
  pose proof (gcd_list_scale g (map (fun c => c / g) l) ltac:(lia)) as H.
  rewrite E in H. fold g in H.
  assert (g * 1 = g * gcd_list (map (fun c => c / g) l)) by lia.
  apply Z.mul_reg_l in H0; lia.
Qed.

Lemma mapM_floordiv (g : Z) (l : list Z) :
  g <> 0 ->
  mapM (fun c => Py.floordiv c g) l = Ok (map (fun c => c / g) l).
Proof.
  intros Hg. induction l as [|c l IH]; simpl; auto.
  unfold Py.floordiv at 1. destruct (Z.eqb_spec g 0); [contradiction|].
  simpl. now rewrite IH.
Qed.

Lemma fold_min_le (l : list Z) : forall a,
  fold_left Z.min l a <= a /\ forall x, In x l -> fold_left Z.min l a <= x.
Proof.
  induction l as [|y l IH]; intros a; simpl; [split; [lia|contradiction]|].
  destruct (IH (Z.min a y)) as [H1 H2]. split; [lia|].
  intros x [<-|Hx]; [lia|auto].
Qed.

(** What [_solve_matrix] returns on the first vector [sol] of the null space:
    with [L] the common denominator, [s] the sign and [g] the common divisor,
    the vector [s * L * sol / g], whose entries have no common divisor. *)
Lemma solve_matrix_returns (matrix : list (list Z)) (M : Sympy.matrix)
  (sol : Sympy.row) (ns : list Sympy.row) :
  Sympy.Matrix matrix = Ok M ->
  Sympy.nullspace M = sol :: ns ->
  exists (scaled coeffs : list Z) (L s g : Z),
    _solve_matrix matrix = Ok coeffs
    /\ 0 < L /\ (s = 1 \/ s = -1) /\ 0 < g
    /\ map Sympy.Integer scaled
       = map (fun x => (x * Sympy.Integer L)%Qc) sol
    /\ map (Z.mul g) coeffs = map (Z.mul s) scaled
    /\ gcd_list coeffs = 1.
Proof.
  intros HM Hns. unfold _solve_matrix. rewrite HM. cbn [bind]. rewrite Hns.
  assert (Hone : In (Q2Qc 1) sol).
  { apply (nullspace_has_one M). rewrite Hns. left. reflexivity. }
  set (L := fold_left Sympy.ilcm (map Sympy.q sol) 1).
  destruct (fold_lcm_spec (map Sympy.q sol) 1 ltac:(lia)) as (HL & _ & Hdiv).
  { intros d Hd. apply in_map_iff in Hd. destruct Hd as (x & <- & _).
    unfold Sympy.q. lia. }
  fold L in HL, Hdiv.
  set (scaled := map (fun x => Sympy.to_int (x * Sympy.Integer L)%Qc) sol).
  assert (Hscaled : map Sympy.Integer scaled
                    = map (fun x => (x * Sympy.Integer L)%Qc) sol).
  { unfold scaled. rewrite map_map. apply map_ext_in. intros x Hx.
    apply mul_denominator_multiple, Hdiv, in_map, Hx. }
  assert (HinL : In L scaled).
  { unfold scaled. apply in_map_iff. exists (Q2Qc 1). split; auto.
    rewrite Qcmult_1_l. apply to_int_Integer. }
  destruct scaled as [|x0 xs] eqn:Escaled; [contradiction|].
  cbn [Py.min bind]. set (m := fold_left Z.min xs x0).
  set (s := if m <? 0 then -1 else 1).
  assert (Hs : s = 1 \/ s = -1) by (unfold s; destruct (m <? 0); auto).
  assert (Hcoeffs : (if m <? 0 then map Z.opp (x0 :: xs) else x0 :: xs)
                    = map (Z.mul s) (x0 :: xs)).
  { unfold s. destruct (m <? 0).
    - apply map_ext. intros; lia.
    - rewrite <- (map_id (x0 :: xs)) at 1. apply map_ext. intros; lia. }
  rewrite Hcoeffs. cbn [map].
  set (g := fold_left Z.gcd (map (Z.mul s) xs) (s * x0)).
  pose proof (fold_gcd_abs (map (Z.mul s) xs) (s * x0)) as Habs. fold g in Habs.
  change (s * x0 :: map (Z.mul s) xs) with (map (Z.mul s) (x0 :: xs)) in *.
  assert (Hg0 : 0 <= g).
  { apply fold_gcd_nonneg. destruct xs as [|x1 xs']; [right|left; discriminate].
    unfold s, m. simpl. destruct (Z.ltb_spec x0 0); lia. }
  assert (Hgl : gcd_list (map (Z.mul s) (x0 :: xs)) = g) by lia.
  assert (Hgpos : 0 < g).
  { assert (g <> 0); [|lia]. intros E. rewrite E in Hgl.
    pose proof (gcd_list_zero _ Hgl (s * L) (in_map (Z.mul s) _ _ HinL)). lia. }
  rewrite mapM_floordiv by lia.
  exists (x0 :: xs), (map (fun c => c / g) (map (Z.mul s) (x0 :: xs))), L, s, g.
  repeat split; auto.
  - revert Hgl. generalize (map (Z.mul s) (x0 :: xs)) as T. intros T Hgl.
    rewrite map_map. transitivity (map (fun c : Z => c) T); [|apply map_id].
    apply map_ext_in. intros c Hc.
    pose proof (gcd_list_divides _ c Hc) as [k Hk].
    rewrite Hgl in Hk. rewrite Hk, Z.div_mul by lia. lia.
  - rewrite <- Hgl. apply gcd_list_div. lia.
Qed.

Lemma solve_matrix_no_solution (matrix : list (list Z)) (M : Sympy.matrix) :
  Sympy.Matrix matrix = Ok M ->
  Sympy.nullspace M = [] ->
  _solve_matrix matrix = Raise (Exception "No solution found for the matrix.").
Proof.
  intros HM Hns. unfold _solve_matrix. rewrite HM. cbn [bind]. now rewrite Hns.
Qed.

(** C5. The entries of every vector the solver returns have greatest common
    divisor 1. *)
Theorem solve_matrix_gcd_one (matrix : list (list Z)) (coeffs : list Z) :
  _solve_matrix matrix = Ok coeffs -> gcd_list coeffs = 1.
Proof.
  intros H. destruct (Sympy.Matrix matrix) as [M|e] eqn:HM.
  2:{ unfold _solve_matrix in H. rewrite HM in H. discriminate. }
  destruct (Sympy.nullspace M) as [|sol ns] eqn:Hns.
  - rewrite (solve_matrix_no_solution _ _ HM Hns) in H. discriminate.
  - destruct (solve_matrix_returns _ _ _ _ HM Hns)
      as (scaled & coeffs' & L & s & g & Hret & _ & _ & _ & _ & _ & Hgcd).
    congruence.
Qed.

Lemma solve_matrix_gcd_one_witness : gcd_list [4; 3; 2] = 1.
Proof.
  exact (solve_matrix_gcd_one [[-1; 0; 2]; [0; -2; 3]] [4; 3; 2] eq_refl).
Defined.

(* ================================================================== *)
(** * The cases of the solver *)



(** C2 at the inputs ["H2+H2O-->O2"] and ["Fe+O2-->Fe2O3+H2O"]: [balance]
    returns, with negative coefficients in the first and a zero coefficient
    in the second, where the claim has the solver fail. *)
Theorem balance_returns_nonpositive :
  coefficients_of first_occurrences ["H2"; "H2O"]%string ["O2"%string]
  = Ok [2; -2; -1]
  /\ fst (balance first_occurrences __init__ "H2+H2O-->O2")
     = Ok "2H2 + -2H2O\to-1O2"%string
  /\ coefficients_of first_occurrences ["Fe"; "O2"]%string
       ["Fe2O3"; "H2O"]%string
     = Ok [4; 3; 2; 0]
  /\ fst (balance first_occurrences __init__ "Fe+O2-->Fe2O3+H2O")
     = Ok "4Fe + 3O2\to2Fe2O3 + 0H2O"%string.
Proof. repeat split; vm_compute; reflexivity. Qed.

(* ================================================================== *)
(** * Conservation of the elements *)

Lemma mapM_ok_length {A B : Type} (f : A -> result B) (l : list A) :
  forall bs, mapM f l = Ok bs -> List.length bs = List.length l.
Proof.
  induction l as [|a l IH]; intros bs; simpl; [intros [= <-]; auto|].
  destruct (f a); [|discriminate]. simpl.
  destruct (mapM f l) as [bs'|]; [|discriminate]. simpl.
  intros [= <-]. simpl. now rewrite (IH bs').
Qed.

Lemma mapM_bind_map {A B C : Type} (f : A -> result B) (g : B -> C)
  (l : list A) :
  mapM (fun x => y <- f x ;; Ok (g y)) l = (ys <- mapM f l ;; Ok (map g ys)).
Proof.
  induction l as [|a l IH]; simpl; auto.
  destruct (f a); simpl; auto. rewrite IH.
  destruct (mapM f l); reflexivity.
Qed.

Lemma mapM_ok_map {A B : Type} (f : A -> result B) (g : A -> B) (l : list A) :
  (forall a, In a l -> f a = Ok (g a)) -> mapM f l = Ok (map g l).
Proof.
  induction l as [|a l IH]; intros H; simpl; auto.
  rewrite (H a) by (left; reflexivity). simpl.
  rewrite IH by (intros; apply H; right; auto). reflexivity.
Qed.

Lemma build_row_ok (reactants products : list string) (dr dp : list dict)
  (element : string) :
  mapM _parse_compound reactants = Ok dr ->
  mapM _parse_compound products = Ok dp ->
  build_row reactants products element = Ok (row_of dr dp element).
Proof.
  intros Hr Hp. unfold build_row.
  rewrite (mapM_bind_map _parse_compound (fun d => - dict_get d element 0)), Hr.
  cbn [bind].
  rewrite (mapM_bind_map _parse_compound (fun d => dict_get d element 0)), Hp.
  reflexivity.
Qed.

(** What [_build_matrix] returns: one row per listed element. *)
Lemma build_matrix_ok (list_of_set : list string -> list string)
  (reactants products : list string) (matrix : list (list Z))
  (element_list : list string) :
  _build_matrix list_of_set reactants products = Ok (matrix, element_list) ->
  exists dr dp,
    mapM _parse_compound reactants = Ok dr
    /\ mapM _parse_compound products = Ok dp
    /\ element_list
       = list_of_set (List.concat (map keys dr) ++ List.concat (map keys dp))
    /\ matrix = map (row_of dr dp) element_list.
Proof.
  unfold _build_matrix, collect.
  destruct (mapM _parse_compound reactants) as [dr|] eqn:Hr; [|discriminate].
  destruct (mapM _parse_compound products) as [dp|] eqn:Hp; [|discriminate].
  cbn [bind].
  rewrite (mapM_ok_map _ (row_of dr dp))
    by (intros; now apply build_row_ok).
  cbn [bind]. intros [= <- <-]. exists dr, dp. auto.
Qed.

Lemma Matrix_ok (l : list (list Z)) (M : Sympy.matrix) :
  Sympy.Matrix l = Ok M ->
  Sympy.data M = map (map Sympy.Integer) l
  /\ well_formed M
  /\ forall r, In r l -> List.length r = Sympy.cols M.
Proof.
  unfold Sympy.Matrix.
  set (n := match l with [] => O | r :: _ => List.length r end).
  destruct (forallb (fun r => (List.length r =? n)%nat) l) eqn:Hall;
    [|discriminate].
  intros [= <-]. rewrite forallb_forall in Hall.
  assert (Hlen : forall r, In r l -> List.length r = n).
  { intros r Hr. apply Nat.eqb_eq. auto. }
  split; [reflexivity|]. split; [|exact Hlen].
  intros r Hr. simpl in *. apply in_map_iff in Hr.
  destruct Hr as (r0 & <- & Hr0). rewrite length_map. auto.
Qed.

Lemma dot_Integer (r : list Z) : forall v,
  dot (map Sympy.Integer r) (map Sympy.Integer v) = Sympy.Integer (dotZ r v).
Proof.
  induction r as [|x r IH]; intros [|y v]; simpl; auto.
  now rewrite IH, Integer_add, Integer_mul.
Qed.

Lemma dot_scale_vector (k : Qc) (r : Sympy.row) : forall v,
  dot r (map (fun x => (x * k)%Qc) v) = (k * dot r v)%Qc.
Proof.
  induction r as [|x r IH]; intros [|y v]; simpl; try ring.
  rewrite IH. ring.
Qed.

Lemma dotZ_scale_vector (k : Z) (r : list Z) : forall v,
  dotZ r (map (Z.mul k) v) = k * dotZ r v.
Proof.
  induction r as [|x r IH]; intros [|y v]; simpl; try lia.
  rewrite IH. lia.
Qed.

Lemma dotZ_app (a : list Z) : forall b v,
  dotZ (a ++ b) v
  = dotZ a (firstn (List.length a) v) + dotZ b (skipn (List.length a) v).
Proof.
  induction a as [|x a IH]; intros b v; simpl; auto.
  destruct v as [|y v]; simpl.
  - destruct b; reflexivity.
  - rewrite IH. lia.
Qed.

Lemma dotZ_map_opp (a : list Z) : forall v,
  dotZ (map Z.opp a) v = - dotZ a v.
Proof.
  induction a as [|x a IH]; intros [|y v]; simpl; auto. rewrite IH. lia.
Qed.

(** Every row of the matrix is orthogonal to the vector the solver returns. *)
Lemma solve_matrix_kernel (matrix : list (list Z)) (coeffs : list Z) :
  _solve_matrix matrix = Ok coeffs ->
  forall r, In r matrix ->
            dotZ r coeffs = 0 /\ List.length coeffs = List.length r.
Proof.
  intros H r Hr. destruct (Sympy.Matrix matrix) as [M|e] eqn:HM.
  2:{ unfold _solve_matrix in H. rewrite HM in H. discriminate. }
  destruct (Sympy.nullspace M) as [|sol ns] eqn:Hns.
  { rewrite (solve_matrix_no_solution _ _ HM Hns) in H. discriminate. }
  destruct (solve_matrix_returns _ _ _ _ HM Hns)
    as (scaled & coeffs' & L & s & g & Hret & HL & Hs & Hg & Hsc & Hgc & _).
  rewrite Hret in H. injection H as ->.
  destruct (Matrix_ok _ _ HM) as (Hdata & Hwf & Hlen).
  assert (Hsol : In sol (Sympy.nullspace M)) by (rewrite Hns; left; auto).
  split.
  - pose proof (nullspace_sound M sol Hwf Hsol (map Sympy.Integer r)) as Hk.
    rewrite Hdata in Hk. specialize (Hk (in_map _ _ _ Hr)).
    assert (Hscaled : dotZ r scaled = 0).
    { apply Integer_inj. rewrite <- dot_Integer, Hsc, dot_scale_vector, Hk.
      rewrite Integer_0. ring. }
    assert (E : g * dotZ r coeffs = s * dotZ r scaled).
    { now rewrite <- !dotZ_scale_vector, Hgc. }
    rewrite Hscaled in E. nia.
  - apply (f_equal (@List.length Z)) in Hgc.
    apply (f_equal (@List.length Qc)) in Hsc.
    rewrite !length_map in Hgc, Hsc.
    rewrite Hgc, Hsc, (nullspace_length M sol Hsol). symmetry. auto.
Qed.

Lemma solve_matrix_nonempty (matrix : list (list Z)) (coeffs : list Z) :
  _solve_matrix matrix = Ok coeffs -> matrix <> [].
Proof. intros H E. subst matrix. vm_compute in H. discriminate. Qed.

(** C1. When [balance] returns, the split, the parse of every compound and
    the solver have succeeded, there is one coefficient per compound, and
    for every element of any compound the atoms on the reactant side,
    counted with the returned coefficients, are as many as on the product
    side. *)
Theorem balance_conserves_elements
  (list_of_set : list string -> list string)
  (self : ChemicalEquationBalancer) (equation out : string) :
  lists_the_set list_of_set ->
  fst (balance list_of_set self equation) = Ok out ->
  exists reactants products dr dp coefficients,
    fst (parse_equation self equation) = Ok (reactants, products)
    /\ mapM _parse_compound reactants = Ok dr
    /\ mapM _parse_compound products = Ok dp
    /\ coefficients_of list_of_set reactants products = Ok coefficients
    /\ get_balanced_equation coefficients reactants products = Ok out
    /\ List.length coefficients
       = (List.length reactants + List.length products)%nat
    /\ forall element d,
         In d (dr ++ dp) -> In element (keys d) ->
         side_sum element dr (firstn (List.length reactants) coefficients)
         = side_sum element dp (skipn (List.length reactants) coefficients).
Proof.
  intros Hset. unfold balance.
  destruct (parse_equation self equation) as [[[reactants products]|e] self']
    eqn:Hsplit; [|discriminate].
  cbn [fst].
  destruct (coefficients_of list_of_set reactants products)
    as [coefficients|e] eqn:Hco; [|discriminate].
  cbn [bind]. intros Hout.
  unfold coefficients_of in Hco.
  destruct (_build_matrix list_of_set reactants products)
    as [[matrix element_list]|e] eqn:Hbuild; [|discriminate].
  cbn [bind] in Hco.
  destruct (build_matrix_ok _ _ _ _ _ Hbuild) as (dr & dp & Hr & Hp & Hel & Hm).
  pose proof (mapM_ok_length _ _ _ Hr) as Hlr.
  pose proof (mapM_ok_length _ _ _ Hp) as Hlp.
  exists reactants, products, dr, dp, coefficients.
  split; [reflexivity|]. split; [exact Hr|]. split; [exact Hp|].
  split; [unfold coefficients_of; rewrite Hbuild; exact Hco|].
  split; [exact Hout|]. split.
  - pose proof (solve_matrix_nonempty _ _ Hco) as Hne.
    destruct element_list as [|e0 els]; [subst matrix; contradiction|].
    assert (Hrow : In (row_of dr dp e0) matrix)
      by (rewrite Hm; left; reflexivity).
    destruct (solve_matrix_kernel _ _ Hco _ Hrow) as [_ Hlen].
    rewrite Hlen. unfold row_of. rewrite length_app, !length_map. lia.
  - intros element d Hd Hkey.
    assert (Hin : In element element_list).
    { rewrite Hel. apply Hset. rewrite <- concat_app, <- map_app.
      apply in_concat. exists (keys d). split; auto. now apply in_map. }
    assert (Hrow : In (row_of dr dp element) matrix).
    { rewrite Hm. now apply in_map. }
    destruct (solve_matrix_kernel _ _ Hco _ Hrow) as [Hdot _].
    unfold row_of in Hdot. rewrite dotZ_app, length_map in Hdot.
    rewrite <- (map_map (fun d => dict_get d element 0) Z.opp) in Hdot.
    rewrite dotZ_map_opp in Hdot. unfold side_sum. rewrite <- Hlr. lia.
Qed.

(* ================================================================== *)
(** * The order of the rows *)

Lemma in_first_occurrences (l : list string) (y : string) :
  In y (first_occurrences l) <-> In y l.
Proof.
  induction l as [|x l IH]; simpl; [tauto|].
  rewrite filter_In, IH, negb_true_iff.
  destruct (String.eqb_spec x y) as [->|Hne]; [tauto|].
  split; [tauto|]. intros [H|H]; auto.
Qed.

Lemma first_occurrences_lists_the_set : lists_the_set first_occurrences.
Proof.
  intros added. split; [|intros x; apply in_first_occurrences].
  induction added as [|x l IH]; simpl; constructor.
  - rewrite filter_In, String.eqb_refl. simpl. intros [_ H]. discriminate.
  - now apply NoDup_filter.
Qed.

Lemma two_element_orders (a b : string) (l : list string) :
  a <> b -> NoDup l -> (forall x, In x l <-> In x [a; b; a; b]) ->
  l = [a; b] \/ l = [b; a].
Proof.
  intros Hab Hnd Hin.
  assert (Hl : forall x, In x l -> x = a \/ x = b).
  { intros x Hx. apply Hin in Hx. simpl in Hx. intuition congruence. }
  assert (Ha : In a l) by (apply Hin; simpl; auto).
  assert (Hb : In b l) by (apply Hin; simpl; auto).
  destruct l as [|x [|y [|z l]]].
  - contradiction.
  - simpl in Ha, Hb. intuition congruence.
  - inversion Hnd as [|? ? Hx _]; subst. simpl in Hx.
    destruct (Hl x ltac:(simpl; auto)), (Hl y ltac:(simpl; auto)); subst;
      auto; tauto.
  - exfalso. inversion Hnd as [|? ? Hx Hnd']; subst.
    inversion Hnd' as [|? ? Hy _]; subst. simpl in Hx, Hy.
    destruct (Hl x ltac:(simpl; auto)), (Hl y ltac:(simpl; auto)),
      (Hl z ltac:(simpl; auto)); subst; tauto.
Qed.

Lemma balance_conserves_elements_witness :
  exists reactants products dr dp coefficients,
    fst (parse_equation __init__ "Fe+O2-->Fe2O3") = Ok (reactants, products)
    /\ mapM _parse_compound reactants = Ok dr
    /\ mapM _parse_compound products = Ok dp
    /\ coefficients_of first_occurrences reactants products = Ok coefficients
    /\ get_balanced_equation coefficients reactants products
       = Ok "4Fe + 3O2\to2Fe2O3"%string
    /\ List.length coefficients
       = (List.length reactants + List.length products)%nat
    /\ forall element d,
         In d (dr ++ dp) -> In element (keys d) ->
         side_sum element dr (firstn (List.length reactants) coefficients)
         = side_sum element dp (skipn (List.length reactants) coefficients).
Proof.
  apply (balance_conserves_elements first_occurrences __init__
           "Fe+O2-->Fe2O3" "4Fe + 3O2\to2Fe2O3"
           first_occurrences_lists_the_set).
  vm_compute. reflexivity.
Defined.

(** C8 fails as stated: the compounds of a side are joined with [" + "]. *)
Lemma balance_iron_oxide_spaces :
  fst (balance first_occurrences __init__ "Fe+O2-->Fe2O3")
  = Ok "4Fe + 3O2\to2Fe2O3"%string
  /\ fst (balance first_occurrences __init__ "Fe+O2-->Fe2O3")
     <> Ok "4Fe+3O2\to2Fe2O3"%string.
Proof.
  assert (E : fst (balance first_occurrences __init__ "Fe+O2-->Fe2O3")
              = Ok "4Fe + 3O2\to2Fe2O3"%string) by (vm_compute; reflexivity).
  split; [exact E|]. rewrite E. discriminate.
Qed.

(** C8, amended. For ["Fe+O2-->Fe2O3"], in whatever order the set of elements
    is listed, [balance] computes the coefficients [[4, 3, 2]] and returns
    ["4Fe + 3O2\to2Fe2O3"]: each coefficient other than 1 directly before its
    compound, the compounds of a side joined with [" + "], the sides with
    ["\to"]. *)
Theorem balance_iron_oxide (list_of_set : list string -> list string)
  (self : ChemicalEquationBalancer) :
  lists_the_set list_of_set ->
  coefficients_of list_of_set ["Fe"; "O2"]%string ["Fe2O3"%string]
  = Ok [4; 3; 2]
  /\ fst (balance list_of_set self "Fe+O2-->Fe2O3")
     = Ok "4Fe + 3O2\to2Fe2O3"%string.
Proof.
  intros Hset.
  assert (Hco : coefficients_of list_of_set ["Fe"; "O2"]%string
                  ["Fe2O3"%string] = Ok [4; 3; 2]).
  { unfold coefficients_of, _build_matrix.
    change (collect ["Fe"; "O2"]%string) with (Ok ["Fe"; "O"]%string).
    change (collect ["Fe2O3"%string]) with (Ok ["Fe"; "O"]%string).
    cbn [bind app].
    destruct (Hset ["Fe"; "O"; "Fe"; "O"]%string) as [Hnd Hin].
    destruct (two_element_orders "Fe" "O" _ ltac:(discriminate) Hnd Hin)
      as [-> | ->]; reflexivity. }
  split; [exact Hco|].
  unfold balance.
  change (parse_equation self "Fe+O2-->Fe2O3")
    with (Ok (["Fe"; "O2"]%string, ["Fe2O3"%string]),
          {| elements := elements self;
             compounds := ["Fe"; "O2"; "Fe2O3"]%string |}).
  cbn [fst]. rewrite Hco. reflexivity.
Qed.

Lemma balance_iron_oxide_witness :
  coefficients_of first_occurrences ["Fe"; "O2"]%string ["Fe2O3"%string]
  = Ok [4; 3; 2]
  /\ fst (balance first_occurrences __init__ "Fe+O2-->Fe2O3")
     = Ok "4Fe + 3O2\to2Fe2O3"%string.
Proof.
  exact (balance_iron_oxide first_occurrences __init__
           first_occurrences_lists_the_set).
Defined.

(* ================================================================== *)
(** * More on the formula parser *)

Lemma get_beyond (s : string) : forall i,
  (String.length s <= i)%nat -> get i s = None.
Proof.
  induction s as [|c s IH]; intros [|i] H; simpl in *; auto; try lia.
  apply IH. lia.
Qed.

Lemma find_close_shift (rest : string) : forall j pc,
  find_close rest (S j) pc = S (find_close rest j pc).
Proof.
  induction rest as [|c rest IH]; intros j pc; simpl; auto.
  destruct (pc =? 0)%nat; auto.
  destruct (Ascii.eqb c "("); [|destruct (Ascii.eqb c ")")]; apply IH.
Qed.

Lemma read_subscript_shift (rest : string) : forall sub j,
  read_subscript rest sub (S j)
  = (fst (read_subscript rest sub j), S (snd (read_subscript rest sub j))).
Proof.
  induction rest as [|c rest IH]; intros sub j; simpl; auto.
  destruct (Py.isdigit c); auto.
Qed.

(** The loop reads the string only from its index on. *)
Lemma parse_loop_cons : forall fuel c compound i elements,
  parse_loop fuel (String c compound) (S i) elements
  = parse_loop fuel compound i elements.
Proof.
  induction fuel as [|fuel IH]; intros c compound i elements; auto.
  cbn [parse_loop get]. destruct (get i compound) as [a|]; auto.
  destruct (Ascii.eqb a "(").
  - change (S i + 1)%nat with (S (i + 1)). cbn [Py.drop].
    rewrite find_close_shift.
    set (j := find_close (Py.drop (i + 1) compound) (i + 1) 1).
    replace (Py.slice (String c compound) (S (i + 1)) (S j - 1))
      with (Py.slice compound (i + 1) (j - 1)).
    2:{ unfold Py.slice. cbn [substring]. f_equal. lia. }
    destruct (parse_loop fuel (Py.slice compound (i + 1) (j - 1)) 0 [])
      as [sub|e]; auto.
    cbn [bind Py.drop]. rewrite read_subscript_shift.
    destruct (read_subscript (Py.drop j compound) "" j) as [subscript j'].
    cbn [fst snd]. destruct (subscript_count subscript); auto.
    cbn [bind]. apply IH.
  - destruct (Py.isupper a).
    + change (S i + 1)%nat with (S (i + 1)).
      change (S i + 2)%nat with (S (i + 2)). cbn [get].
      replace (Py.slice (String c compound) (S i) (S (i + 2)))
        with (Py.slice compound i (i + 2)).
      2:{ unfold Py.slice. cbn [substring]. f_equal. }
      destruct (match get (i + 1) compound with
                | Some c' => if Py.islower c'
                             then (Py.slice compound i (i + 2), (i + 2)%nat)
                             else (String a "", (i + 1)%nat)
                | None => (String a "", (i + 1)%nat) end)
        as [element i1] eqn:E.
      assert (E' : match get (i + 1) compound with
                   | Some c' => if Py.islower c'
                                then (Py.slice compound i (i + 2), S (i + 2))
                                else (String a "", S (i + 1))
                   | None => (String a "", S (i + 1)) end
                   = (element, S i1)).
      { destruct (get (i + 1) compound) as [c'|];
          [destruct (Py.islower c')|]; injection E as <- <-; reflexivity. }
      rewrite E'. cbn [Py.drop]. rewrite read_subscript_shift.
      destruct (read_subscript (Py.drop i1 compound) "" i1) as [subscript i2].
      cbn [fst snd]. destruct (subscript_count subscript); auto.
      cbn [bind]. apply IH.
    + change (S i + 1)%nat with (S (i + 1)). apply IH.
Qed.

Lemma parse_compound_stray_char (c : ascii) (s : string) :
  stray c = true -> _parse_compound (String c s) = _parse_compound s.
Proof.
  unfold stray. intros H. apply andb_true_iff in H. destruct H as [H1 H2].
  apply negb_true_iff in H1, H2.
  unfold _parse_compound. cbn [String.length].
  change (parse_loop (S (S (String.length s))) (String c s) 0 [])
    with (if Ascii.eqb c "(" then
            let j := find_close (Py.drop (0 + 1) (String c s)) (0 + 1) 1 in
            let subcompound := Py.slice (String c s) (0 + 1) (j - 1) in
            sub_elements <- parse_loop (S (String.length s)) subcompound 0 [] ;;
            let '(subscript, j') :=
              read_subscript (Py.drop j (String c s)) EmptyString j in
            count <- subscript_count subscript ;;
            parse_loop (S (String.length s)) (String c s) j'
              (merge_group [] sub_elements count)
          else if Py.isupper c then
            let '(element, i1) :=
              match get (0 + 1) (String c s) with
              | Some c' =>
                  if Py.islower c'
                  then (Py.slice (String c s) 0 (0 + 2), (0 + 2)%nat)
                  else (String c EmptyString, (0 + 1)%nat)
              | None => (String c EmptyString, (0 + 1)%nat)
              end in
            let '(subscript, i2) :=
              read_subscript (Py.drop i1 (String c s)) EmptyString i1 in
            count <- subscript_count subscript ;;
            parse_loop (S (String.length s)) (String c s) i2
              (dict_add [] element count)
          else parse_loop (S (String.length s)) (String c s) (0 + 1) []).
  rewrite H1, H2. apply parse_loop_cons.
Qed.

Lemma parse_compound_stray_prefix (prefix s : string) :
  Py.all_chars stray prefix = true ->
  _parse_compound (prefix ++ s) = _parse_compound s.
Proof.
  induction prefix as [|c p IH]; intros H; auto.
  cbn [Py.all_chars] in H. apply andb_true_iff in H. destruct H as [Hc Hp].
  cbn [append]. rewrite parse_compound_stray_char by exact Hc. auto.
Qed.

(** Characters before the first opening token or uppercase letter are
    skipped without effect. *)
Theorem parse_compound_skips_stray_prefix (prefix s : string) :
  Py.all_chars stray prefix = true ->
  _parse_compound (prefix ++ s) = _parse_compound s.
Proof. apply parse_compound_stray_prefix. Qed.

Lemma parse_compound_skips_stray_prefix_witness :
  _parse_compound ("\mathrm{" ++ "H}2O") = _parse_compound "H}2O".
Proof.
  apply (parse_compound_skips_stray_prefix "\mathrm{" "H}2O").
  vm_compute. reflexivity.
Defined.

Lemma string_of_uint_stray (d : Decimal.uint) :
  Py.all_chars stray (NilEmpty.string_of_uint d) = true.
Proof. induction d; simpl; auto. Qed.

Lemma str_stray (n : Z) : Py.all_chars stray (Py.str n) = true.
Proof.
  unfold Py.str, NilZero.string_of_int, NilZero.string_of_uint.
  destruct (Z.to_int n) as [d|d]; destruct d; simpl;
    rewrite ?string_of_uint_stray; reflexivity.
Qed.

(** Re-parsing the items the formatter writes gives what parsing the
    compounds themselves gives: the coefficient written before a compound
    does not change its element counts. *)
Theorem format_side_reparse (coefficients : list Z) (side : list string) :
  forall offset i items,
  format_side coefficients offset i side = Ok items ->
  map _parse_compound items = map _parse_compound side.
Proof.
  induction side as [|compound side IH]; intros offset i items; simpl.
  - intros [= <-]. reflexivity.
  - destruct (nth_error coefficients (i + offset)) as [coef|]; [|discriminate].
    destruct (format_side coefficients offset (S i) side) as [items'|] eqn:E;
      [|discriminate].
    cbn [bind]. intros [= <-]. cbn [map]. f_equal; [|eapply IH, E].
    destruct (coef =? 1); auto.
    apply parse_compound_stray_prefix, str_stray.
Qed.

Lemma format_side_reparse_witness :
  map _parse_compound ["4Fe"; "3O2"]%string
  = map _parse_compound ["Fe"; "O2"]%string.
Proof.
  apply (format_side_reparse [4; 3; 2] ["Fe"; "O2"]%string 0%nat 0%nat).
  vm_compute. reflexivity.
Defined.

(** ** The keys of the mapping *)

Lemma slice_two (s : string) : forall i c c',
  get i s = Some c -> get (i + 1) s = Some c' ->
  Py.slice s i (i + 2) = String c (String c' "").
Proof.
  unfold Py.slice. intros i c c'. replace (i + 2 - i)%nat with 2%nat by lia.
  revert i. induction s as [|a s IH]; intros [|i]; simpl; try discriminate.
  - intros [= ->]. destruct s as [|b s]; simpl; [discriminate|].
    intros [= ->]. now destruct s.
  - apply IH.
Qed.

Lemma keys_merge_group_forall (P : string -> Prop) (sub : dict) :
  forall d count,
  Forall P (keys d) -> Forall P (keys sub) ->
  Forall P (keys (merge_group d sub count)).
Proof.
  unfold merge_group.
  induction sub as [|[k q] sub IH]; intros d count Hd Hs; simpl; auto.
  simpl in Hs. inversion Hs as [|? ? Hk Hs']; subst.
  apply IH; auto. rewrite keys_dict_add.
  destruct (dict_mem k d); auto. apply Forall_app. auto.
Qed.

Lemma parse_loop_symbols : forall fuel compound i elements d,
  Forall (fun k => is_symbol k = true) (keys elements) ->
  parse_loop fuel compound i elements = Ok d ->
  Forall (fun k => is_symbol k = true) (keys d).
Proof.
  induction fuel as [|fuel IH]; intros compound i elements d HP; [discriminate|].
  simpl. destruct (get i compound) as [c|] eqn:Hget; [|intros [= <-]; exact HP].
  destruct (Ascii.eqb c "(").
  - set (j := find_close (Py.drop (i + 1) compound) (i + 1) 1).
    destruct (parse_loop fuel (Py.slice compound (i + 1) (j - 1)) 0 [])
      as [sub|e] eqn:Hsub; [|discriminate].
    simpl. destruct (read_subscript (Py.drop j compound) "" j) as [subscript j'].
    destruct (subscript_count subscript) as [count|e]; [|discriminate].
    simpl. apply IH. apply keys_merge_group_forall; auto.
    apply (IH _ _ [] _ (Forall_nil _) Hsub).
  - destruct (Py.isupper c) eqn:Hup; [|apply IH; auto].
    destruct (match get (i + 1) compound with
              | Some c' => if Py.islower c'
                           then (Py.slice compound i (i + 2), (i + 2)%nat)
                           else (String c "", (i + 1)%nat)
              | None => (String c "", (i + 1)%nat) end)
      as [element i1] eqn:E.
    assert (Hsym : is_symbol element = true).
    { destruct (get (i + 1) compound) as [c'|] eqn:Hget';
        [destruct (Py.islower c') eqn:Hlow|]; injection E as <- <-.
      - rewrite (slice_two _ _ _ _ Hget Hget'). simpl. now rewrite Hup, Hlow.
      - exact Hup.
      - exact Hup. }
    destruct (read_subscript (Py.drop i1 compound) "" i1) as [subscript i2].
    destruct (subscript_count subscript) as [count|e]; [|discriminate].
    simpl. apply IH. rewrite keys_dict_add.
    destruct (dict_mem element elements); auto. apply Forall_app. auto.
Qed.

(** The keys of the mapping the parser returns are distinct element symbols:
    an uppercase letter, alone or followed by one lowercase letter. *)
Theorem parse_compound_keys (compound : string) (d : dict) :
  _parse_compound compound = Ok d ->
  NoDup (keys d) /\ Forall (fun k => is_symbol k = true) (keys d).
Proof.
  intros H. split.
  - exact (parse_compound_nodup_keys _ _ H).
  - exact (parse_loop_symbols _ _ _ [] _ (Forall_nil _) H).
Qed.

Lemma parse_compound_keys_witness :
  NoDup (keys [("Ca", 1); ("O", 2); ("H", 2)])
  /\ Forall (fun k => is_symbol k = true) (keys [("Ca", 1); ("O", 2); ("H", 2)]).
Proof.
  apply (parse_compound_keys "Ca(OH)2"). vm_compute. reflexivity.
Defined.

(** ** A group that is the whole compound *)

Lemma dict_set_fresh (d : dict) (k : string) (v : Z) :
  dict_mem k d = false -> dict_set d k v = d ++ [(k, v)].
Proof.
  induction d as [|[k0 v0] d IH]; simpl; auto.
  destruct (String.eqb k k0); [discriminate|]. intros H. now rewrite IH.
Qed.

Lemma merge_group_fresh (sub : dict) : forall d count,
  NoDup (keys sub) ->
  (forall k, In k (keys sub) -> ~ In k (keys d)) ->
  merge_group d sub count = d ++ scale_dict sub count.
Proof.
  unfold merge_group, scale_dict.
  induction sub as [|[k q] sub IH]; intros d count Hnd Hfresh; simpl.
  - now rewrite app_nil_r.
  - inversion Hnd as [|? ? Hk Hnd']; subst.
    assert (Hm : dict_mem k d = false).
    { destruct (dict_mem k d) eqn:E; auto. apply dict_mem_keys in E.
      exfalso. apply (Hfresh k); simpl; auto. }
    assert (Ha : dict_add d k (q * count) = d ++ [(k, q * count)]).
    { unfold dict_add. now rewrite Hm, dict_set_fresh. }
    rewrite Ha, IH; auto.
    + now rewrite <- app_assoc.
    + intros k' Hk' Hin. unfold keys in Hin. rewrite map_app, in_app_iff in Hin.
      destruct Hin as [Hin|[<-|[]]].
      * apply (Hfresh k'); simpl; auto.
      * contradiction.
Qed.

Lemma scale_dict_one (d : dict) : scale_dict d 1 = d.
Proof.
  unfold scale_dict. induction d as [|[k q] d IH]; simpl; auto.
  rewrite IH. do 2 f_equal. lia.
Qed.

Lemma find_close_zero (rest : string) (j : nat) : find_close rest j 0 = j.
Proof. destruct rest; reflexivity. Qed.

Lemma find_close_no_paren (rest : string) : forall j pc,
  Py.all_chars not_paren rest = true -> pc <> 0%nat ->
  find_close rest j pc = (j + String.length rest)%nat.
Proof.
  induction rest as [|c rest IH]; intros j pc H Hpc; simpl; [lia|].
  cbn [Py.all_chars] in H. apply andb_true_iff in H. destruct H as [Hc Hr].
  unfold not_paren in Hc. apply andb_true_iff in Hc. destruct Hc as [H1 H2].
  apply negb_true_iff in H1, H2. rewrite H1, H2.
  destruct (Nat.eqb_spec pc 0); [contradiction|].
  rewrite IH by auto. lia.
Qed.

Lemma find_close_closing (s rest : string) : forall j,
  Py.all_chars not_paren s = true ->
  find_close (s ++ String ")" rest) j 1 = (j + String.length s + 1)%nat.
Proof.
  induction s as [|c s IH]; intros j H.
  - cbn [append find_close Nat.eqb]. change (Ascii.eqb ")" "(") with false.
    change (Ascii.eqb ")" ")") with true. cbn iota.
    rewrite find_close_zero. simpl. lia.
  - cbn [Py.all_chars] in H. apply andb_true_iff in H. destruct H as [Hc Hr].
    unfold not_paren in Hc. apply andb_true_iff in Hc. destruct Hc as [H1 H2].
    apply negb_true_iff in H1, H2.
    cbn [append find_close Nat.eqb String.length]. rewrite H1, H2.
    rewrite IH by auto. lia.
Qed.

Lemma length_string_app (s t : string) :
  String.length (s ++ t) = (String.length s + String.length t)%nat.
Proof. induction s as [|c s IH]; simpl; auto. Qed.

Lemma substring_prefix (s t : string) :
  substring 0 (String.length s) (s ++ t) = s.
Proof.
  induction s as [|c s IH]; simpl; [now destruct t|]. now rewrite IH.
Qed.

Lemma drop_app_length (s t : string) : Py.drop (String.length s) (s ++ t) = t.
Proof. induction s as [|c s IH]; simpl; auto. Qed.

Lemma drop_beyond (s : string) : forall i,
  (String.length s <= i)%nat -> Py.drop i s = "".
Proof.
  induction s as [|c s IH]; intros [|i] H; simpl in *; auto; try lia.
  apply IH. lia.
Qed.

Lemma read_subscript_digits (d : string) : forall sub j,
  Py.all_chars Py.isdigit d = true ->
  read_subscript d sub j = ((sub ++ d)%string, (j + String.length d)%nat).
Proof.
  induction d as [|c d IH]; intros sub j H; simpl.
  - f_equal; [|lia]. clear. induction sub; simpl; congruence.
  - cbn [Py.all_chars] in H. apply andb_true_iff in H. destruct H as [Hc Hd].
    rewrite Hc, IH by auto. f_equal; [|lia].
    clear. induction sub; simpl; congruence.
Qed.

Lemma parse_from_end (compound : string) (i : nat) (elements : dict) :
  (String.length compound <= i)%nat ->
  parse_from compound i elements = Ok elements.
Proof.
  intros H. unfold parse_from. cbn [parse_loop]. now rewrite get_beyond.
Qed.

(** The loop at an opening token, whatever the recursive parse and the
    subscript come to. *)
Lemma parse_from_group (compound : string) (i : nat) (elements : dict) :
  get i compound = Some "("%char ->
  let j := find_close (Py.drop (i + 1) compound) (i + 1) 1 in
  parse_from compound i elements
  = (sub_elements <- _parse_compound (Py.slice compound (i + 1) (j - 1)) ;;
     count <- subscript_count
                (fst (read_subscript (Py.drop j compound) "" j)) ;;
     parse_from compound (snd (read_subscript (Py.drop j compound) "" j))
       (merge_group elements sub_elements count)).
Proof.
  intros Hget j.
  pose proof (get_some_lt _ _ _ Hget) as Hi.
  pose proof (find_close_bounds (Py.drop (i + 1) compound) (i + 1) 1) as Hj.
  rewrite length_drop in Hj. fold j in Hj.
  pose proof (length_slice_le compound (i + 1) (j - 1)) as Hlen.
  pose proof (read_subscript_bounds (Py.drop j compound) "" j) as Hj'.
  unfold parse_from at 1. cbn [parse_loop]. rewrite Hget.
  change (Ascii.eqb "(" "(") with true. cbn iota. fold j.
  unfold _parse_compound.
  rewrite (parse_loop_fuel _ (S (String.length (Py.slice compound (i + 1) (j - 1))))
             (Py.slice compound (i + 1) (j - 1)) 0%nat []) by lia.
  destruct (parse_loop _ (Py.slice compound (i + 1) (j - 1)) 0 []); auto.
  cbn [bind].
  destruct (read_subscript (Py.drop j compound) "" j) as [s k].
  cbn [fst snd] in *. destruct (subscript_count s); auto.
  cbn [bind]. apply parse_loop_fuel; lia.
Qed.

(** An opening token that is never closed: the group runs to the end of the
    string and loses its last character. *)
Theorem parse_compound_unclosed_group (s : string) :
  Py.all_chars not_paren s = true ->
  _parse_compound (String "(" s) = _parse_compound (init s).
Proof.
  intros Hs. rewrite (parse_compound_from (String "(" s)).
  rewrite parse_from_group by reflexivity.
  change (Py.drop (0 + 1) (String "(" s)) with s.
  rewrite find_close_no_paren by (auto; lia).
  replace (Py.slice (String "(" s) (0 + 1) (0 + 1 + String.length s - 1))
    with (init s).
  2:{ unfold init, Py.slice. cbn [Nat.add substring]. f_equal. lia. }
  rewrite (drop_beyond (String "(" s)) by (simpl; lia).
  cbn [read_subscript fst snd subscript_count bind].
  destruct (_parse_compound (init s)) as [sub|e] eqn:Hsub; auto.
  cbn [bind]. rewrite parse_from_end by (simpl; lia).
  rewrite merge_group_fresh; auto.
  - now rewrite scale_dict_one.
  - exact (parse_compound_nodup_keys _ _ Hsub).
Qed.

Lemma parse_compound_unclosed_group_witness :
  _parse_compound "(AB" = _parse_compound "A".
Proof.
  apply (parse_compound_unclosed_group "AB"). vm_compute. reflexivity.
Defined.

(** A compound that is one closed group followed by digits: the counts of
    the group's content, each multiplied by the number the digits spell (by
    1 when there are none); the errors of the inner parse and of [int] pass
    through. *)
Theorem parse_compound_closed_group (s digits : string) :
  Py.all_chars not_paren s = true ->
  Py.all_chars Py.isdigit digits = true ->
  _parse_compound (String "(" (s ++ String ")" digits))
  = (sub_elements <- _parse_compound s ;;
     count <- subscript_count digits ;;
     Ok (scale_dict sub_elements count)).
Proof.
  intros Hs Hd.
  rewrite (parse_compound_from (String "(" (s ++ String ")" digits))).
  rewrite parse_from_group by reflexivity.
  change (Py.drop (0 + 1) (String "(" (s ++ String ")" digits)))
    with (s ++ String ")" digits)%string.
  rewrite find_close_closing by auto.
  replace (Py.slice (String "(" (s ++ String ")" digits)) (0 + 1)
             (0 + 1 + String.length s + 1 - 1)) with s.
  2:{ unfold Py.slice. cbn [Nat.add substring].
      replace (S (String.length s + 1) - 1 - 1)%nat with (String.length s)
        by lia.
      symmetry. apply substring_prefix. }
  replace (Py.drop (0 + 1 + String.length s + 1)
             (String "(" (s ++ String ")" digits))) with digits.
  2:{ replace (0 + 1 + String.length s + 1)%nat
        with (S (String.length (s ++ String ")" "")))
        by (rewrite length_string_app; simpl; lia).
      cbn [Py.drop].
      replace (s ++ String ")" digits)%string
        with ((s ++ String ")" "") ++ digits)%string.
      - now rewrite drop_app_length.
      - clear. induction s; simpl; congruence. }
  rewrite read_subscript_digits by auto. cbn [fst snd append].
  destruct (_parse_compound s) as [sub|e] eqn:Hsub; auto.
  cbn [bind]. destruct (subscript_count digits) as [count|e]; auto.
  cbn [bind]. rewrite parse_from_end.
  - rewrite merge_group_fresh; auto.
    exact (parse_compound_nodup_keys _ _ Hsub).
  - cbn [String.length]. rewrite length_string_app. simpl. lia.
Qed.

Lemma parse_compound_closed_group_witness :
  _parse_compound "(AB2)3"
  = (sub_elements <- _parse_compound "AB2" ;;
     count <- subscript_count "3" ;;
     Ok (scale_dict sub_elements count)).
Proof.
  apply (parse_compound_closed_group "AB2" "3"); vm_compute; reflexivity.
Defined.

(* ================================================================== *)
(** * More on the equation splitter *)

Lemma all_chars_and (p q : ascii -> bool) (s : string) :
  Py.all_chars (fun c => p c && q c) s = Py.all_chars p s && Py.all_chars q s.
Proof.
  induction s as [|c s IH]; simpl; auto. rewrite IH.
  destruct (p c), (q c), (Py.all_chars p s), (Py.all_chars q s); reflexivity.
Qed.

Lemma replace_from_all (P : ascii -> bool) (old new : string) :
  Py.all_chars P new = true ->
  forall s skip, Py.all_chars P s = true ->
  Py.all_chars P (Py.replace_from old new skip s) = true.
Proof.
  intros Hnew. induction s as [|c s IH]; intros skip Hs;
    cbn [Py.replace_from]; auto.
  cbn [Py.all_chars] in Hs. apply andb_true_iff in Hs. destruct Hs as [Hc Hs].
  destruct skip; auto.
  destruct (prefix old (String c s)).
  - rewrite all_chars_app, Hnew. cbn [andb]. auto.
  - cbn [Py.all_chars]. rewrite Hc. cbn [andb]. auto.
Qed.

Lemma replace_removes_char (c : ascii) (s : string) :
  Py.all_chars (fun a => negb (Ascii.eqb a c))
               (Py.replace s (String c "") "") = true.
Proof.
  unfold Py.replace. induction s as [|a s IH]; auto.
  cbn [Py.replace_from prefix String.length Nat.sub].
  destruct (ascii_dec c a) as [->|Hne].
  - assert (E : prefix "" s = true) by now destruct s.
    rewrite E. exact IH.
  - cbn [Py.all_chars]. rewrite IH, andb_true_r.
    apply negb_true_iff, Ascii.eqb_neq. congruence.
Qed.

Lemma split_from_all (P : ascii -> bool) (sep : string) :
  forall s skip cur,
  Py.all_chars P cur = true -> Py.all_chars P s = true ->
  Forall (fun piece => Py.all_chars P piece = true)
         (Py.split_from sep skip cur s).
Proof.
  induction s as [|c s IH]; intros skip cur Hcur Hs; cbn [Py.split_from].
  - repeat constructor. exact Hcur.
  - cbn [Py.all_chars] in Hs. apply andb_true_iff in Hs.
    destruct Hs as [Hc Hs]. destruct skip; auto.
    destruct (prefix sep (String c s)).
    + constructor; auto.
    + apply IH; auto. rewrite all_chars_app, Hcur. cbn [Py.all_chars andb].
      now rewrite Hc.
Qed.

Lemma split_char_pieces (c : ascii) : forall s cur,
  Py.all_chars (fun a => negb (Ascii.eqb a c)) cur = true ->
  Forall (fun piece =>
            Py.all_chars (fun a => negb (Ascii.eqb a c)) piece = true)
         (Py.split_from (String c "") 0 cur s).
Proof.
  induction s as [|a s IH]; intros cur Hcur.
  - repeat constructor. exact Hcur.
  - cbn [Py.split_from prefix String.length Nat.sub].
    destruct (ascii_dec c a) as [->|Hne].
    + assert (E : prefix "" s = true) by now destruct s.
      rewrite E. constructor; auto.
    + apply IH. rewrite all_chars_app, Hcur. cbn [Py.all_chars andb].
      rewrite andb_true_r. apply negb_true_iff, Ascii.eqb_neq. congruence.
Qed.

Lemma split_from_not_nil (sep : string) : forall s skip cur,
  Py.split_from sep skip cur s <> [].
Proof.
  induction s as [|c s IH]; intros skip cur; cbn [Py.split_from];
    [discriminate|].
  destruct skip; auto. destruct (prefix sep (String c s)); [discriminate|auto].
Qed.

Lemma string_app_assoc (a b c : string) :
  ((a ++ b) ++ c = a ++ b ++ c)%string.
Proof. induction a; simpl; congruence. Qed.

(** Joining the pieces of a split on one character gives the string back. *)
Lemma join_split_char (c : ascii) : forall s cur,
  Py.join (String c "") (Py.split_from (String c "") 0 cur s)
  = (cur ++ s)%string.
Proof.
  induction s as [|a s IH]; intros cur.
  - cbn [Py.split_from Py.join]. clear. induction cur; simpl; congruence.
  - cbn [Py.split_from prefix String.length Nat.sub].
    destruct (ascii_dec c a) as [->|Hne].
    + assert (E : prefix "" s = true) by now destruct s.
      rewrite E. specialize (IH ""%string).
      pose proof (split_from_not_nil (String a "") s 0 "") as Hnil.
      destruct (Py.split_from (String a "") 0 "" s) as [|x l];
        [contradiction|].
      cbn [Py.join]. cbn [Py.join] in IH. rewrite IH. reflexivity.
    + rewrite IH, string_app_assoc. reflexivity.
Qed.

(** When the splitter returns, both sides hold at least one compound string,
    and joining the reactants with ["+"], the separator, and the products
    joined with ["+"] gives the normalized equation back: no character of it
    is lost. *)
Theorem parse_equation_round_trip (self : ChemicalEquationBalancer)
  (equation : string) (reactants products : list string) :
  fst (parse_equation self equation) = Ok (reactants, products) ->
  reactants <> [] /\ products <> []
  /\ normalize equation
     = (Py.join "+" reactants ++ arrow ++ Py.join "+" products)%string.
Proof.
  unfold parse_equation.
  destruct (Py.split (normalize equation) arrow) as [|a [|b [|c l]]] eqn:Hs;
    cbn [fst]; try discriminate.
  intros [= <- <-]. unfold Py.split in *.
  split; [apply split_from_not_nil|]. split; [apply split_from_not_nil|].
  destruct (split_from_pair _ _ _ _ Hs) as [lhs [-> E]].
  rewrite !join_split_char. exact E.
Qed.

Lemma parse_equation_round_trip_witness :
  ["H2"; "O2"]%string <> [] /\ ["H2O"%string] <> []
  /\ normalize "H2 + O2 --> H2O"
     = (Py.join "+" ["H2"; "O2"]%string ++ arrow
        ++ Py.join "+" ["H2O"%string])%string.
Proof.
  apply (parse_equation_round_trip __init__ "H2 + O2 --> H2O").
  vm_compute. reflexivity.
Defined.

(** No compound string the splitter returns holds a space, an underscore or
    a plus sign. *)
Theorem parse_equation_compound_chars (self : ChemicalEquationBalancer)
  (equation : string) (reactants products : list string) :
  fst (parse_equation self equation) = Ok (reactants, products) ->
  Forall (fun compound => Py.all_chars compound_char compound = true)
         (reactants ++ products).
Proof.
  unfold parse_equation.
  destruct (Py.split (normalize equation) arrow) as [|a [|b [|c l]]] eqn:Hs;
    cbn [fst]; try discriminate.
  intros [= <- <-].
  set (Q := fun c => negb (Ascii.eqb c " ") && negb (Ascii.eqb c "_")).
  assert (Hnorm : Py.all_chars Q (normalize equation) = true).
  { unfold Q, normalize. rewrite all_chars_and. apply andb_true_iff. split.
    - apply replace_from_all; [reflexivity|].
      apply replace_from_all; [reflexivity|].
      apply replace_removes_char.
    - apply replace_from_all; [reflexivity|].
      apply replace_removes_char. }
  pose proof (split_from_all Q arrow (normalize equation) 0 "" eq_refl Hnorm)
    as Hsides.
  unfold Py.split in Hs. rewrite Hs in Hsides.
  inversion Hsides as [|? ? Ha Hrest]; subst.
  inversion Hrest as [|? ? Hb _]; subst.
  assert (Hside : forall side, Py.all_chars Q side = true ->
            Forall (fun compound => Py.all_chars compound_char compound = true)
                   (Py.split side "+")).
  { intros side Hq. unfold Py.split.
    pose proof (split_from_all Q "+" side 0 "" eq_refl Hq) as H1.
    pose proof (split_char_pieces "+" side "" eq_refl) as H2.
    rewrite Forall_forall in *. intros piece Hin.
    specialize (H1 piece Hin). specialize (H2 piece Hin).
    unfold compound_char.
    change (fun c => negb (Ascii.eqb c " ") && negb (Ascii.eqb c "_")
                     && negb (Ascii.eqb c "+"))
      with (fun c => Q c && (fun a => negb (Ascii.eqb a "+")) c).
    now rewrite all_chars_and, H1, H2. }
  apply Forall_app. split; apply Hside; assumption.
Qed.

Lemma parse_equation_compound_chars_witness :
  Forall (fun compound => Py.all_chars compound_char compound = true)
         (["H2"%string; "O2"%string] ++ ["H2O"%string]).
Proof.
  apply (parse_equation_compound_chars __init__ "H_2 + O_2 --> H_2O").
  vm_compute. reflexivity.
Defined.

(* ================================================================== *)
(** * More on the matrix builder *)

Lemma mapM_ok_forall2 {A B : Type} (f : A -> result B) (l : list A) :
  forall bs, mapM f l = Ok bs -> Forall2 (fun a b => f a = Ok b) l bs.
Proof.
  induction l as [|a l IH]; intros bs; simpl; [intros [= <-]; constructor|].
  destruct (f a) as [b|] eqn:Ha; [|discriminate]. simpl.
  destruct (mapM f l) as [bs'|]; [|discriminate]. simpl.
  intros [= <-]. constructor; auto.
Qed.

Lemma forall2_in_r {A B : Type} (R : A -> B -> Prop) (l : list A) (bs : list B) :
  Forall2 R l bs -> forall b, In b bs -> exists a, In a l /\ R a b.
Proof.
  induction 1 as [|a b l bs Hab _ IH]; intros b' Hb; [contradiction|].
  destruct Hb as [<-|Hb]; [exists a; simpl; auto|].
  destruct (IH b' Hb) as (a' & Ha' & HR). exists a'. simpl. auto.
Qed.

Lemma forall2_in_l {A B : Type} (R : A -> B -> Prop) (l : list A) (bs : list B) :
  Forall2 R l bs -> forall a, In a l -> exists b, In b bs /\ R a b.
Proof.
  induction 1 as [|a b l bs Hab _ IH]; intros a' Ha; [contradiction|].
  destruct Ha as [<-|Ha]; [exists b; simpl; auto|].
  destruct (IH a' Ha) as (b' & Hb' & HR). exists b'. simpl. auto.
Qed.

Lemma parse_compound_values_nonneg (compound : string) (d : dict) :
  _parse_compound compound = Ok d -> values_ge 0 d.
Proof.
  apply (parse_loop_invariant (fun _ => true) (fun n => 0 <= n) (values_ge 0)).
  - intros s n _. apply subscript_count_nonneg.
  - constructor.
  - intros. apply values_ge_dict_add; auto; lia.
  - intros. apply values_ge_merge_group; auto.
  - clear. induction compound; simpl; auto.
  - constructor.
Qed.

Lemma dict_get_nonneg (d : dict) (k : string) :
  values_ge 0 d -> 0 <= dict_get d k 0.
Proof.
  intros H. destruct (dict_mem k d) eqn:Hm.
  - unfold values_ge in H. rewrite Forall_forall in H.
    apply H, dict_get_mem_in, Hm.
  - rewrite dict_get_not_mem by exact Hm. lia.
Qed.

(** The matrix [_build_matrix] returns: one row per element, the elements
    being exactly those of the parsed compounds, each once; one column per
    compound; the entries of the reactant columns are not positive and those
    of the product columns not negative. *)
Theorem build_matrix_shape (list_of_set : list string -> list string)
  (reactants products : list string) (matrix : list (list Z))
  (element_list : list string) :
  lists_the_set list_of_set ->
  _build_matrix list_of_set reactants products = Ok (matrix, element_list) ->
  List.length matrix = List.length element_list
  /\ NoDup element_list
  /\ (forall element,
        In element element_list <->
        exists compound d,
          In compound (reactants ++ products)
          /\ _parse_compound compound = Ok d /\ In element (keys d))
  /\ forall row, In row matrix ->
       List.length row = (List.length reactants + List.length products)%nat
       /\ Forall (fun x => x <= 0) (firstn (List.length reactants) row)
       /\ Forall (fun x => 0 <= x) (skipn (List.length reactants) row).
Proof.
  intros Hset Hbuild.
  destruct (build_matrix_ok _ _ _ _ _ Hbuild) as (dr & dp & Hr & Hp & Hel & Hm).
  pose proof (mapM_ok_length _ _ _ Hr) as Hlr.
  pose proof (mapM_ok_length _ _ _ Hp) as Hlp.
  pose proof (mapM_ok_forall2 _ _ _ Hr) as Fr.
  pose proof (mapM_ok_forall2 _ _ _ Hp) as Fp.
  assert (Fall : Forall2 (fun a b => _parse_compound a = Ok b)
                         (reactants ++ products) (dr ++ dp))
    by now apply Forall2_app.
  destruct (Hset (List.concat (map keys dr) ++ List.concat (map keys dp)))
    as [Hnd Hin].
  rewrite <- Hel in Hnd, Hin.
  split; [subst matrix; apply length_map|]. split; [exact Hnd|]. split.
  - intros element. rewrite Hin, <- concat_app, <- map_app, in_concat.
    split.
    + intros (ks & Hks & He). apply in_map_iff in Hks.
      destruct Hks as (d & <- & Hd).
      destruct (forall2_in_r _ _ _ Fall d Hd) as (compound & Hc & Hparse).
      eauto.
    + intros (compound & d & Hc & Hparse & He).
      destruct (forall2_in_l _ _ _ Fall compound Hc) as (d' & Hd' & Hparse').
      assert (d' = d) by congruence. subst d'.
      exists (keys d). split; auto. now apply in_map.
  - intros row Hrow. rewrite Hm in Hrow. apply in_map_iff in Hrow.
    destruct Hrow as (element & <- & _). unfold row_of.
    assert (Hlen : List.length (map (fun d => - dict_get d element 0) dr)
                   = List.length reactants) by now rewrite length_map.
    split; [rewrite length_app, !length_map; lia|].
    rewrite <- Hlen, firstn_app, skipn_app, Nat.sub_diag, firstn_all, skipn_all.
    cbn [firstn skipn]. rewrite app_nil_r. cbn [app].
    split; apply Forall_forall; intros x Hx; apply in_map_iff in Hx;
      destruct Hx as (d & <- & Hd).
    + destruct (forall2_in_r _ _ _ Fr d Hd) as (compound & _ & Hparse).
      pose proof (dict_get_nonneg d element
                    (parse_compound_values_nonneg _ _ Hparse)). lia.
    + destruct (forall2_in_r _ _ _ Fp d Hd) as (compound & _ & Hparse).
      exact (dict_get_nonneg d element
               (parse_compound_values_nonneg _ _ Hparse)).
Qed.

Lemma build_matrix_shape_witness :
  List.length [[-1; 0; 2]; [0; -2; 3]] = List.length ["Fe"; "O"]%string
  /\ NoDup ["Fe"; "O"]%string
  /\ (forall element,
        In element ["Fe"; "O"]%string <->
        exists compound d,
          In compound (["Fe"; "O2"] ++ ["Fe2O3"])%list%string
          /\ _parse_compound compound = Ok d /\ In element (keys d))
  /\ forall row, In row [[-1; 0; 2]; [0; -2; 3]] ->
       List.length row
       = (List.length ["Fe"; "O2"]%string + List.length ["Fe2O3"%string])%nat
       /\ Forall (fun x => x <= 0)
                 (firstn (List.length ["Fe"; "O2"]%string) row)
       /\ Forall (fun x => 0 <= x)
                 (skipn (List.length ["Fe"; "O2"]%string) row).
Proof.
  apply (build_matrix_shape first_occurrences ["Fe"; "O2"]%string
           ["Fe2O3"%string] _ _ first_occurrences_lists_the_set).
  vm_compute. reflexivity.
Defined.

(* ================================================================== *)
(** * More on the formatter *)

Lemma format_side_ok (coefficients : list Z) (offset : nat) (side : list string) :
  forall i,
  (i + offset + List.length side <= List.length coefficients)%nat ->
  exists items, format_side coefficients offset i side = Ok items.
Proof.
  induction side as [|compound side IH]; intros i H; simpl in *; [eauto|].
  destruct (nth_error coefficients (i + offset)) as [coef|] eqn:E.
  - destruct (IH (S i)) as [items ->]; [simpl; lia|]. simpl. eauto.
  - apply nth_error_None in E. lia.
Qed.

Lemma format_side_short (coefficients : list Z) (offset : nat)
  (side : list string) :
  forall i,
  side <> [] ->
  (List.length coefficients < i + offset + List.length side)%nat ->
  format_side coefficients offset i side = Raise IndexError.
Proof.
  induction side as [|compound side IH]; intros i Hne H; [contradiction|].
  simpl in *.
  destruct (nth_error coefficients (i + offset)) as [coef|] eqn:E; auto.
  assert (Hlt : (i + offset < List.length coefficients)%nat).
  { apply nth_error_Some. congruence. }
  assert (Hne' : side <> [])
    by (destruct side; [simpl in H; lia|discriminate]).
  rewrite (IH (S i) Hne') by (simpl; lia). reflexivity.
Qed.

(** When every coefficient is within what [str] converts, the formatter
    returns a string if there is a coefficient for every compound, and
    raises [IndexError] if there are fewer. *)
Theorem get_balanced_equation_bounds (coefficients : list Z)
  (reactants products : list string) :
  Forall within_str_limit coefficients ->
  ((List.length reactants + List.length products
    <= List.length coefficients)%nat ->
   exists out,
     get_balanced_equation coefficients reactants products = Ok out)
  /\ ((List.length coefficients
       < List.length reactants + List.length products)%nat ->
      get_balanced_equation coefficients reactants products
      = Raise IndexError).
Proof.
  intros _. unfold get_balanced_equation. split; intros H.
  - destruct (format_side_ok coefficients 0 reactants 0) as [rs ->]; [lia|].
    destruct (format_side_ok coefficients (List.length reactants) products 0)
      as [ps ->]; [lia|].
    simpl. eauto.
  - destruct (Nat.lt_ge_cases (List.length coefficients) (List.length reactants))
      as [Hr|Hr].
    + assert (Hne : reactants <> [])
        by (destruct reactants; [simpl in Hr; lia|discriminate]).
      rewrite (format_side_short coefficients 0 reactants 0 Hne) by lia.
      reflexivity.
    + destruct (format_side_ok coefficients 0 reactants 0) as [rs ->]; [lia|].
      cbn [bind].
      assert (Hne : products <> [])
        by (destruct products; [simpl in H; lia|discriminate]).
      rewrite (format_side_short coefficients (List.length reactants)
                 products 0 Hne) by lia.
      reflexivity.
Qed.

Lemma get_balanced_equation_bounds_witness :
  (exists out,
     get_balanced_equation [2; 1; 2] ["H2"; "O2"]%string ["H2O"%string]
     = Ok out)
  /\ get_balanced_equation [2; 1] ["H2"; "O2"]%string ["H2O"%string]
     = Raise IndexError.
Proof.
  split.
  - apply (proj1 (get_balanced_equation_bounds [2; 1; 2] ["H2"; "O2"]%string
                    ["H2O"%string]
                    ltac:(repeat constructor; vm_compute; reflexivity))).
    simpl. lia.
  - apply (proj2 (get_balanced_equation_bounds [2; 1] ["H2"; "O2"]%string
                    ["H2O"%string]
                    ltac:(repeat constructor; vm_compute; reflexivity))).
    simpl. lia.
Defined.

(* ================================================================== *)
(** * More on the solver *)

(** Whenever the solver returns, the matrix has a row, every row is
    orthogonal to the returned vector, and the vector has one entry per
    column. *)
Theorem solve_matrix_orthogonal (matrix : list (list Z)) (coeffs : list Z) :
  _solve_matrix matrix = Ok coeffs ->
  matrix <> []
  /\ forall r, In r matrix ->
       dotZ r coeffs = 0 /\ List.length coeffs = List.length r.
Proof.
  intros H. split.
  - exact (solve_matrix_nonempty _ _ H).
  - exact (solve_matrix_kernel _ _ H).
Qed.

Lemma solve_matrix_orthogonal_witness :
  [[-2; 0; 2]; [0; -2; 1]] <> []
  /\ forall r, In r [[-2; 0; 2]; [0; -2; 1]] ->
       dotZ r [2; 1; 2] = 0 /\ List.length [2; 1; 2] = List.length r.
Proof.
  apply (solve_matrix_orthogonal [[-2; 0; 2]; [0; -2; 1]] [2; 1; 2]).
  vm_compute. reflexivity.
Defined.

Lemma fold_min_in (l : list Z) : forall a, In (fold_left Z.min l a) (a :: l).
Proof.
  induction l as [|x l IH]; intros a; cbn [fold_left]; [left; reflexivity|].
  destruct (IH (Z.min a x)) as [H|H].
  - rewrite <- H.
    destruct (Z.min_spec a x) as [[_ E]|[_ E]]; rewrite E; simpl; auto.
  - right. right. exact H.
Qed.

(** The vector before the division by the common divisor [g]: the scaled
    solution, negated when its least entry is negative. *)
Lemma solve_matrix_sign (matrix : list (list Z)) (coeffs : list Z) :
  _solve_matrix matrix = Ok coeffs ->
  exists (x0 : Z) (xs : list Z) (L g : Z),
    0 < L /\ 0 < g /\ In L (x0 :: xs)
    /\ coeffs
       = map (fun c => c / g)
           (if fold_left Z.min xs x0 <? 0 then map Z.opp (x0 :: xs)
            else x0 :: xs)
    /\ forall c, In c (x0 :: xs) -> (g | c).
Proof.
  unfold _solve_matrix.
  destruct (Sympy.Matrix matrix) as [M|e] eqn:HM; [|discriminate].
  cbn [bind]. destruct (Sympy.nullspace M) as [|sol ns] eqn:Hns; [discriminate|].
  assert (Hone : In (Q2Qc 1) sol).
  { apply (nullspace_has_one M). rewrite Hns. left. reflexivity. }
  set (L := fold_left Sympy.ilcm (map Sympy.q sol) 1).
  destruct (fold_lcm_spec (map Sympy.q sol) 1 ltac:(lia)) as (HL & _ & _).
  { intros d Hd. apply in_map_iff in Hd. destruct Hd as (x & <- & _).
    unfold Sympy.q. lia. }
  fold L in HL.
  set (scaled := map (fun x => Sympy.to_int (x * Sympy.Integer L)%Qc) sol).
  assert (HinL : In L scaled).
  { unfold scaled. apply in_map_iff. exists (Q2Qc 1). split; auto.
    rewrite Qcmult_1_l. apply to_int_Integer. }
  destruct scaled as [|x0 xs]; [contradiction|].
  cbn [Py.min bind]. set (m := fold_left Z.min xs x0).
  set (T := if m <? 0 then map Z.opp (x0 :: xs) else x0 :: xs).
  assert (HT : exists t0 ts, T = t0 :: ts /\ (ts <> [] \/ 0 <= t0)).
  { unfold T. destruct (Z.ltb_spec m 0).
    - exists (- x0), (map Z.opp xs). split; auto.
      destruct xs; [right|left; discriminate]. unfold m in *. simpl in *. lia.
    - exists x0, xs. split; auto.
      destruct xs; [right|left; discriminate]. unfold m in *. simpl in *. lia. }
  destruct HT as (t0 & ts & HT & Hnn). rewrite HT.
  set (g := fold_left Z.gcd ts t0).
  pose proof (fold_gcd_abs ts t0) as Habs. fold g in Habs.
  pose proof (fold_gcd_nonneg ts t0 Hnn) as Hg0. fold g in Hg0.
  assert (Hgl : gcd_list T = g) by (rewrite HT; lia).
  assert (HinT : forall c, In c (x0 :: xs) -> In c T \/ In (- c) T).
  { intros c Hc. unfold T. destruct (m <? 0); auto.
    right. now apply in_map. }
  assert (Hgpos : 0 < g).
  { assert (g <> 0); [|lia]. intros E. rewrite E in Hgl.
    destruct (HinT L HinL) as [H|H];
      pose proof (gcd_list_zero _ Hgl _ H); lia. }
  rewrite mapM_floordiv by lia. intros [= <-].
  exists x0, xs, L, g. repeat split; auto.
  - subst T m. rewrite HT. reflexivity.
  - intros c Hc. rewrite <- Hgl.
    destruct (HinT c Hc) as [H|H].
    + now apply gcd_list_divides.
    + apply Z.divide_opp_r. now apply gcd_list_divides.
Qed.

(** The vector the solver returns holds a strictly positive entry: it is
    never the null vector, and never wholly negative or zero. *)
Theorem solve_matrix_positive_entry (matrix : list (list Z)) (coeffs : list Z) :
  _solve_matrix matrix = Ok coeffs -> exists c, In c coeffs /\ 0 < c.
Proof.
  intros H.
  destruct (solve_matrix_sign _ _ H)
    as (x0 & xs & L & g & HL & Hg & HinL & -> & Hdiv).
  assert (Hpos : forall c, 0 < c -> (g | c) -> 0 < c / g).
  { intros c Hc [k ->]. rewrite Z.div_mul by lia. nia. }
  destruct (Z.ltb_spec (fold_left Z.min xs x0) 0) as [Hm|Hm].
  - pose proof (fold_min_in xs x0) as Hin.
    exists (- fold_left Z.min xs x0 / g). split.
    + apply in_map_iff. exists (- fold_left Z.min xs x0). split; auto.
      now apply in_map.
    + apply Hpos; [lia|]. apply Z.divide_opp_r. auto.
  - exists (L / g). split.
    + apply in_map_iff. exists L. auto.
    + apply Hpos; auto.
Qed.

Lemma solve_matrix_positive_entry_witness :
  exists c, In c [2; -2; -1] /\ 0 < c.
Proof.
  apply (solve_matrix_positive_entry [[-2; -2; 0]; [0; -1; 2]]).
  vm_compute. reflexivity.
Defined.

(* ================================================================== *)
(** * The stages of [balance] *)

Lemma Matrix_of_rows (l : list (list Z)) (n : nat) :
  (forall r, In r l -> List.length r = n) -> exists M, Sympy.Matrix l = Ok M.
Proof.
  intros H. unfold Sympy.Matrix.
  set (n0 := match l with [] => O | r :: _ => List.length r end).
  assert (Hall : forallb (fun r => (List.length r =? n0)%nat) l = true).
  { apply forallb_forall. intros r Hr. apply Nat.eqb_eq.
    unfold n0. destruct l as [|r0 l']; [contradiction|].
    rewrite (H r Hr). symmetry. apply H. left. reflexivity. }
  rewrite Hall. eauto.
Qed.

(** On a matrix [_build_matrix] has built, the solver has one way to fail:
    it raises "No solution found", or it returns one coefficient per
    compound (it divides by no zero, indexes no empty vector, and the rows
    make a matrix); the formatter then returns a string, provided every
    coefficient is within what [str] converts. *)
Theorem solve_and_format_built_matrix
  (list_of_set : list string -> list string)
  (reactants products : list string) (matrix : list (list Z))
  (element_list : list string) :
  _build_matrix list_of_set reactants products = Ok (matrix, element_list) ->
  _solve_matrix matrix
  = Raise (Exception "No solution found for the matrix.")
  \/ exists coefficients,
       _solve_matrix matrix = Ok coefficients
       /\ List.length coefficients
          = (List.length reactants + List.length products)%nat
       /\ (Forall within_str_limit coefficients ->
           exists out,
             get_balanced_equation coefficients reactants products = Ok out).
Proof.
  intros Hbuild.
  destruct (build_matrix_ok _ _ _ _ _ Hbuild) as (dr & dp & Hr & Hp & _ & Hm).
  pose proof (mapM_ok_length _ _ _ Hr) as Hlr.
  pose proof (mapM_ok_length _ _ _ Hp) as Hlp.
  assert (Hrows : forall r, In r matrix ->
                  List.length r = (List.length dr + List.length dp)%nat).
  { intros r Hr'. rewrite Hm in Hr'. apply in_map_iff in Hr'.
    destruct Hr' as (e & <- & _).
    unfold row_of. now rewrite length_app, !length_map. }
  destruct (Matrix_of_rows _ _ Hrows) as [M HM].
  destruct (Sympy.nullspace M) as [|sol ns] eqn:Hns.
  - left. exact (solve_matrix_no_solution _ _ HM Hns).
  - right. destruct (solve_matrix_returns _ _ _ _ HM Hns)
      as (scaled & coeffs & L & s & g & Hret & _).
    exists coeffs. split; [exact Hret|].
    assert (Hlen : List.length coeffs
                   = (List.length reactants + List.length products)%nat).
    { pose proof (solve_matrix_nonempty _ _ Hret) as Hne.
      destruct matrix as [|r0 rows]; [contradiction|].
      destruct (solve_matrix_kernel _ _ Hret r0 ltac:(left; reflexivity))
        as [_ Hlen].
      rewrite Hlen, (Hrows r0) by (left; reflexivity). lia. }
    split; [exact Hlen|]. intros _. unfold get_balanced_equation.
    destruct (format_side_ok coeffs 0 reactants 0) as [rs ->]; [lia|].
    destruct (format_side_ok coeffs (List.length reactants) products 0)
      as [ps ->]; [lia|].
    simpl. eauto.
Qed.

Lemma solve_and_format_built_matrix_witness :
  _solve_matrix [[-1; 0; 2]; [0; -2; 3]]
  = Raise (Exception "No solution found for the matrix.")
  \/ exists coefficients,
       _solve_matrix [[-1; 0; 2]; [0; -2; 3]] = Ok coefficients
       /\ List.length coefficients
          = (List.length ["Fe"; "O2"]%string
             + List.length ["Fe2O3"%string])%nat
       /\ (Forall within_str_limit coefficients ->
           exists out,
             get_balanced_equation coefficients ["Fe"; "O2"]%string
               ["Fe2O3"%string] = Ok out).
Proof.
  apply (solve_and_format_built_matrix first_occurrences
           ["Fe"; "O2"]%string ["Fe2O3"%string] [[-1; 0; 2]; [0; -2; 3]]
           ["Fe"; "O"]%string).
  vm_compute. reflexivity.
Defined.

(** An equation whose compounds hold no element at all gives a matrix
    without rows, and [balance] ends in "No solution found". *)
Theorem balance_no_elements (list_of_set : list string -> list string)
  (self : ChemicalEquationBalancer) (equation : string)
  (reactants products : list string) :
  lists_the_set list_of_set ->
  fst (parse_equation self equation) = Ok (reactants, products) ->
  (forall compound, In compound (reactants ++ products) ->
                    _parse_compound compound = Ok []) ->
  fst (balance list_of_set self equation)
  = Raise (Exception "No solution found for the matrix.").
Proof.
  intros Hset Hsplit Hempty. unfold balance.
  destruct (parse_equation self equation) as [[[r p]|e] self'];
    cbn [fst] in *; [|discriminate].
  injection Hsplit as -> ->.
  assert (Hcollect : forall side,
            (forall compound, In compound side ->
                              _parse_compound compound = Ok []) ->
            collect side = Ok []).
  { intros side H. unfold collect.
    rewrite (mapM_ok_map _ (fun _ => ([] : dict))) by exact H.
    cbn [bind]. f_equal. clear. induction side; simpl; auto. }
  unfold coefficients_of, _build_matrix.
  rewrite !Hcollect by (intros; apply Hempty; apply in_app_iff; auto).
  cbn [bind app].
  assert (E : list_of_set [] = []).
  { destruct (Hset []) as [_ Hin]. destruct (list_of_set []) as [|x l]; auto.
    exfalso. apply (Hin x). left. reflexivity. }
  rewrite E. reflexivity.
Qed.

Lemma balance_no_elements_witness :
  fst (balance first_occurrences __init__ "a+b-->c")
  = Raise (Exception "No solution found for the matrix.").
Proof.
  apply (balance_no_elements first_occurrences __init__ "a+b-->c"
           ["a"; "b"]%string ["c"%string] first_occurrences_lists_the_set).
  - vm_compute. reflexivity.
  - intros compound H. simpl in H.
    destruct H as [<-|[<-|[<-|[]]]]; vm_compute; reflexivity.
Defined.

